(** * Shipping tracker: the Express API of [server/index.js]

    A shallow embedding of the request handlers of the shipment-tracking
    server and the properties of its shipment life cycle.

    Modelling conventions.
    - The lowdb document [db.data] is the record [DB]; [db.read()] and
      [db.write()] of one handler run are the identity on it (requests are
      handled one at a time).
    - JavaScript strings are [string]; [toUpperCase] and [toLowerCase] map
      the ASCII letters and leave every other character alone.
    - A field of a JSON request body is a [jsval]: what [express.json()]
      delivers, or [JUndefined] for a field that is not sent.
    - A handler that throws sends no response: its answer is [None].
    - What the server draws from outside (the [nanoid] identifiers, the
      clock readings of [new Date().toISOString()], the salted [bcrypt]
      hash) is an explicit argument of the handler that draws it.
    - [jsonwebtoken] and [bcrypt.compare] are parameters of the model. *)

From Stdlib Require Import ZArith Ascii String Lia.
From Corelib Require Import SpecFloat.
From stdpp Require Import base decidable option list strings relations.

Local Open Scope string_scope.
Local Open Scope list_scope.

(** ** JavaScript strings and values *)

Definition is_lower (c : ascii) : bool :=
  Nat.leb 97 (nat_of_ascii c) && Nat.leb (nat_of_ascii c) 122.

Definition is_upper (c : ascii) : bool :=
  Nat.leb 65 (nat_of_ascii c) && Nat.leb (nat_of_ascii c) 90.

Definition toUpperCase_ascii (c : ascii) : ascii :=
  if is_lower c then ascii_of_nat (nat_of_ascii c - 32) else c.

Definition toLowerCase_ascii (c : ascii) : ascii :=
  if is_upper c then ascii_of_nat (nat_of_ascii c + 32) else c.

Fixpoint map_string (f : ascii → ascii) (s : string) : string :=
  match s with
  | EmptyString => EmptyString
  | String c r => String (f c) (map_string f r)
  end.

(** [s.toUpperCase()] and [s.toLowerCase()]. *)
Definition toUpperCase : string → string := map_string toUpperCase_ascii.
Definition toLowerCase : string → string := map_string toLowerCase_ascii.

Fixpoint string_forallb (p : ascii → bool) (s : string) : bool :=
  match s with
  | EmptyString => true
  | String c r => p c && string_forallb p r
  end.

(** No character of [s] is a lowercase letter. *)
Definition no_lowercase (s : string) : bool :=
  string_forallb (λ c, negb (is_lower c)) s.

(** No character of [s] is a space (as in a compact JWT). *)
Definition no_space (s : string) : bool :=
  string_forallb (λ c, negb (Ascii.eqb c " ")) s.

(** [s.split(sep)] for a one-character separator; the empty string splits
    into one empty piece. *)
Fixpoint split (sep : ascii) (s : string) : list string :=
  match s with
  | EmptyString => [EmptyString]
  | String c r =>
      if Ascii.eqb c sep then EmptyString :: split sep r
      else match split sep r with
           | h :: t => String c h :: t
           | [] => [String c EmptyString]
           end
  end.

(** A value of a parsed JSON body.  A number is the binary64 value that
    [JSON.parse] produces, in the form of the IEEE 754 specification (a
    signed zero, an infinity, NaN, or the sign, mantissa and exponent of a
    finite number that is not zero); an array or an object, which the
    handlers only test and pass on, is carried by its JSON text. *)
Inductive jsval :=
| JUndefined
| JNull
| JBool (b : bool)
| JNumber (n : spec_float)
| JString (s : string)
| JCompound (text : string).

(** The numbers that are falsy: [0], [-0] and [NaN]. *)
Definition number_is_falsy (n : spec_float) : bool :=
  match n with
  | S754_zero _ | S754_nan => true
  | S754_infinity _ | S754_finite _ _ _ => false
  end.

(** Truthiness: [undefined], [null], [false], [0], [-0], [NaN] and the
    empty string are falsy, every other value is truthy. *)
Definition truthy (v : jsval) : bool :=
  match v with
  | JUndefined | JNull => false
  | JBool b => b
  | JNumber n => negb (number_is_falsy n)
  | JString EmptyString => false
  | JString (String _ _) => true
  | JCompound _ => true
  end.

(** [!v] *)
Definition falsy (v : jsval) : bool := negb (truthy v).

(** [v || d] *)
Definition or_else (v d : jsval) : jsval := if truthy v then v else d.

(** What [JSON.stringify] makes of a value, read back: the form in which a
    value is sent in a response and kept in the JSON file between two
    requests.  An infinity (parsed from a literal such as [1e999]) and
    [NaN] are written as [null] and [-0] as [0]; everything else is
    written as it is. *)
Definition to_json (v : jsval) : jsval :=
  match v with
  | JNumber (S754_infinity _) | JNumber S754_nan => JNull
  | JNumber (S754_zero _) => JNumber (S754_zero false)
  | _ => v
  end.

(** The falsy values, listed. *)
Definition falsy_value (v : jsval) : Prop :=
  v = JUndefined ∨ v = JNull ∨ v = JBool false ∨
  (∃ n, v = JNumber n ∧ number_is_falsy n = true) ∨
  v = JString EmptyString.

(** [l.indexOf(x)]: the first position of [x], or [-1]. *)
Definition indexOf (l : list string) (x : string) : Z :=
  match list_find (λ y, y = x) l with
  | Some (i, _) => Z.of_nat i
  | None => (-1)%Z
  end.

(** [l[k]]: [None] is [undefined], for an index outside the array. *)
Definition array_get (l : list string) (k : Z) : option string :=
  if decide (0 ≤ k)%Z then l !! Z.to_nat k else None.

(** ** The stored records *)

Module User.
Record t := mk {
  id : string;
  name : jsval;
  email : string;
  password : string
}.
End User.

Module Entry.
Record t := mk {
  status : string;
  at_ : string
}.
End Entry.

Module Shipment.
Record t := mk {
  id : string;
  tracking : string;
  createdAt : string;
  status : string;
  service : jsval;
  weight : jsval;
  toName : jsval;
  toAddress : jsval;
  history : list Entry.t;
  owner : string
}.
End Shipment.

(** [db.data] *)
Record DB := mkDB {
  users : list User.t;
  shipments : list Shipment.t
}.

(** [{ users: [], shipments: [] }] *)
Definition initDB : DB := mkDB [] [].

(** ** Requests and responses *)

Module Body.
Record t := mk {
  name : jsval;
  email : jsval;
  password : jsval;
  toName : jsval;
  toAddress : jsval;
  weight : jsval;
  service : jsval
}.
Definition empty : t :=
  mk JUndefined JUndefined JUndefined JUndefined JUndefined JUndefined
    JUndefined.
End Body.

Record Request := mkRequest {
  headers_authorization : option string;
  params_tracking : string;
  body : Body.t
}.

(** The claims a session token carries: [{ id, email }]. *)
Record Payload := mkPayload {
  payload_id : string;
  payload_email : string
}.

(** [{ id, name, email }] of a response. *)
Record PublicUser := mkPublicUser {
  pub_id : string;
  pub_name : jsval;
  pub_email : string
}.

Inductive Json :=
| JError (error : string)
| JAuth (token : string) (user : PublicUser)
| JShipment (shipment : Shipment.t)
| JShipments (shipments : list Shipment.t).

Record Response := mkResponse {
  status_code : nat;
  json : Json
}.

(** [res.status(n).json(j)], and [res.json(j)] with the default 200. *)
Definition res_status (n : nat) (j : Json) : Response := mkResponse n j.
Definition res_json (j : Json) : Response := mkResponse 200 j.

(** ** The shipment life cycle *)

Definition nextStatuses : list string :=
  ["Label Created"; "Picked Up"; "In Transit"; "Out for Delivery"; "Delivered"].

(** [nextStatuses[Math.min(curIndex + 1, nextStatuses.length - 1)]] *)
Definition next_status (cur : string) : option string :=
  let curIndex := indexOf nextStatuses cur in
  array_get nextStatuses
    (Z.min (curIndex + 1) (Z.of_nat (length nextStatuses) - 1)).

(** The mutation of the advance route on the shipment it found:
    [s.status = next; s.history.push({ status: next, at })].  The index is
    always inside the array ([next_status_defined] below), so the fallback
    of [default] is never taken. *)
Definition advance_shipment (now : string) (s : Shipment.t) : Shipment.t :=
  let next := default "undefined" (next_status (Shipment.status s)) in
  Shipment.mk (Shipment.id s) (Shipment.tracking s) (Shipment.createdAt s)
    next
    (Shipment.service s) (Shipment.weight s)
    (Shipment.toName s) (Shipment.toAddress s)
    (Shipment.history s ++ [Entry.mk next now])
    (Shipment.owner s).

(** The shipment literal of the create route. *)
Definition new_shipment (id tracking createdAt at_ : string)
    (b : Body.t) (owner : string) : Shipment.t :=
  Shipment.mk id tracking createdAt
    "Label Created"
    (to_json (or_else (Body.service b) (JString "Ground")))
    (to_json (or_else (Body.weight b) (JString "0.0")))
    (to_json (Body.toName b)) (to_json (Body.toAddress b))
    [Entry.mk "Label Created" at_]
    owner.

(** [x => x.tracking === tracking.toUpperCase()] *)
Definition find_tracking (tracking : string) (l : list Shipment.t)
  : option (nat * Shipment.t) :=
  list_find (λ x, Shipment.tracking x = toUpperCase tracking) l.

(** [u => u.email === email.toLowerCase()], for a string [email]. *)
Definition find_email (email : string) (l : list User.t)
  : option (nat * User.t) :=
  list_find (λ u, User.email u = toLowerCase email) l.

(** [users.find(u => u.email === email.toLowerCase())] for any value.  The
    callback runs on the first stored user, if there is one, and
    [email.toLowerCase()] throws there unless [email] is a string; the
    outer [None] is that exception. *)
Definition find_email_val (email : jsval) (l : list User.t)
  : option (option (nat * User.t)) :=
  match email with
  | JString e => Some (find_email e l)
  | _ => match l with
         | [] => Some None
         | _ :: _ => None
         end
  end.

(** ** The handlers *)

Section Server.

Variable jwt_sign : Payload → string.
Variable jwt_verify : string → option Payload.
Variable bcrypt_compare : string → string → bool.

Definition authMiddleware (req : Request) : Response + Payload :=
  match headers_authorization req with
  | None | Some EmptyString =>
      inl (res_status 401 (JError "Missing auth"))
  | Some auth =>
      match split " " auth !! 1 with
      | None => inl (res_status 401 (JError "Invalid token"))
      | Some token =>
          match jwt_verify token with
          | Some payload => inr payload
          | None => inl (res_status 401 (JError "Invalid token"))
          end
      end
  end.

Definition public (u : User.t) : PublicUser :=
  mkPublicUser (User.id u) (User.name u) (User.email u).

Definition token_of (u : User.t) : string :=
  jwt_sign (mkPayload (User.id u) (User.email u)).

(** [POST /api/register]; [nanoid] is the fresh user id and [hash] the
    result of [bcrypt.hash(password, 10)].  The handler throws, sends no
    response and writes nothing when [email.toLowerCase()] is called on a
    value that is not a string (in the [find] callback, or in the user
    literal when no user is stored) and when [bcrypt.hash] is given a
    password that is not a string. *)
Definition register (nanoid hash : string) (req : Request) (db : DB)
  : option Response * DB :=
  let b := body req in
  if falsy (Body.email b) || falsy (Body.password b)
  then (Some (res_status 400 (JError "email & password required")), db)
  else
    match find_email_val (Body.email b) (users db) with
    | None => (None, db)
    | Some (Some _) => (Some (res_status 400 (JError "User exists")), db)
    | Some None =>
        match Body.password b, Body.email b with
        | JString _, JString email =>
            let user := User.mk nanoid
                          (to_json (or_else (Body.name b) (JString "")))
                          (toLowerCase email) hash in
            (Some (res_json (JAuth (token_of user) (public user))),
             mkDB (users db ++ [user]) (shipments db))
        | _, _ => (None, db)
        end
    end.

(** [POST /api/login].  The handler throws and sends no response when
    [email.toLowerCase()] is called on a value that is not a string (in the
    [find] callback) and when [bcrypt.compare] is given a password that is
    not a string. *)
Definition login (req : Request) (db : DB) : option Response * DB :=
  let b := body req in
  if falsy (Body.email b) || falsy (Body.password b)
  then (Some (res_status 400 (JError "email & password required")), db)
  else
    match find_email_val (Body.email b) (users db) with
    | None => (None, db)
    | Some None => (Some (res_status 400 (JError "Invalid credentials")), db)
    | Some (Some (_, user)) =>
        match Body.password b with
        | JString password =>
            if bcrypt_compare password (User.password user)
            then (Some (res_json (JAuth (token_of user) (public user))), db)
            else (Some (res_status 400 (JError "Invalid credentials")), db)
        | _ => (None, db)
        end
    end.

(** [POST /api/shipments]; [nanoid10] is the result of [nanoid(10)],
    [nanoid] the fresh shipment id, [createdAt] and [at_] the two clock
    readings of the shipment literal. *)
Definition create (nanoid10 nanoid createdAt at_ : string)
    (req : Request) (db : DB) : Response * DB :=
  match authMiddleware req with
  | inl r => (r, db)
  | inr user =>
      let b := body req in
      if falsy (Body.toName b) || falsy (Body.toAddress b)
      then (res_status 400 (JError "toName & toAddress required"), db)
      else
        let tracking := toUpperCase nanoid10 in
        let shipment :=
          new_shipment nanoid tracking createdAt at_ b (payload_id user) in
        (res_json (JShipment shipment),
         mkDB (users db) (shipments db ++ [shipment]))
  end.

(** [GET /api/shipments/:tracking] *)
Definition lookup (req : Request) (db : DB) : Response * DB :=
  match find_tracking (params_tracking req) (shipments db) with
  | None => (res_status 404 (JError "Not found"), db)
  | Some (_, s) => (res_json (JShipment s), db)
  end.

(** [GET /api/my-shipments] *)
Definition my_shipments (req : Request) (db : DB) : Response * DB :=
  match authMiddleware req with
  | inl r => (r, db)
  | inr user =>
      (res_json (JShipments
         (filter (λ s, Shipment.owner s = payload_id user) (shipments db))),
       db)
  end.

(** [POST /api/shipments/:tracking/advance]; [now] is the clock reading of
    the new history entry.  [find] hands back the stored object, so the
    mutation lands at the position where it was found. *)
Definition advance (now : string) (req : Request) (db : DB)
  : Response * DB :=
  match find_tracking (params_tracking req) (shipments db) with
  | None => (res_status 404 (JError "Not found"), db)
  | Some (i, s) =>
      let s' := advance_shipment now s in
      (res_json (JShipment s'),
       mkDB (users db) (<[i := s']> (shipments db)))
  end.

(** [advance] called once per clock reading of [nows], in order. *)
Fixpoint advance_many (nows : list string) (req : Request) (db : DB) : DB :=
  match nows with
  | [] => db
  | now :: rest => advance_many rest req (snd (advance now req db))
  end.

(** One request served: the store before and after any route. *)
Inductive step : DB → DB → Prop :=
| step_register nanoid hash req db :
    step db (snd (register nanoid hash req db))
| step_login req db :
    step db (snd (login req db))
| step_create nanoid10 nanoid createdAt at_ req db :
    step db (snd (create nanoid10 nanoid createdAt at_ req db))
| step_lookup req db :
    step db (snd (lookup req db))
| step_my_shipments req db :
    step db (snd (my_shipments req db))
| step_advance now req db :
    step db (snd (advance now req db)).

End Server.

(** ** Predicates of the specification *)

(** The history is non-empty and its last entry carries the current
    status. *)
Definition history_ok (s : Shipment.t) : bool :=
  match last (Shipment.history s) with
  | Some e => bool_decide (Entry.status e = Shipment.status s)
  | None => false
  end.

Definition history_matches (s : Shipment.t) : Prop :=
  ∃ e, last (Shipment.history s) = Some e ∧
       Entry.status e = Shipment.status s.

(** Position of the current status in the stage list ([-1]: not a stage). *)
Definition stage_index (s : Shipment.t) : Z :=
  indexOf nextStatuses (Shipment.status s).

(** The shipments that creation followed by advance calls can produce. *)
Inductive reachable : Shipment.t → Prop :=
| reachable_new id tracking createdAt at_ b owner :
    reachable (new_shipment id tracking createdAt at_ b owner)
| reachable_advance now s :
    reachable s → reachable (advance_shipment now s).

(** [advance_shipment] once per clock reading, in order. *)
Definition advance_times (nows : list string) (s : Shipment.t) : Shipment.t :=
  foldl (λ acc now, advance_shipment now acc) s nows.

(** The request of a route that reads only [:tracking]. *)
Definition tracking_request (tracking : string) : Request :=
  mkRequest None tracking Body.empty.

(** Two e-mail addresses that differ at most in letter case. *)
Definition same_email (e1 e2 : string) : Prop :=
  toLowerCase e1 = toLowerCase e2.

(** A toy token scheme for the worked examples: the token is the user id,
    and every non-empty token verifies. *)
Definition demo_sign (p : Payload) : string := payload_id p.
Definition demo_verify (token : string) : option Payload :=
  match token with
  | EmptyString => None
  | _ => Some (mkPayload token "a@b.com")
  end.
Definition demo_compare (password hash : string) : bool :=
  String.eqb hash ("hash:" +:+ password).

(** The example of the specification: Bob's shipment, created by [u1]. *)
Definition bob_body : Body.t :=
  Body.mk JUndefined JUndefined JUndefined (JString "Bob") (JString "1 Rd")
    JUndefined JUndefined.
Definition bob_request : Request :=
  mkRequest (Some "Bearer u1") "" bob_body.
Definition bob_db : DB :=
  snd (create demo_verify "abcdefghij" "s1" "t0" "t0" bob_request initDB).

(** Bob's shipment as created, and the store after four advances. *)
Definition bob_shipment : Shipment.t :=
  new_shipment "s1" "ABCDEFGHIJ" "t0" "t0" bob_body "u1".
Definition bob_delivered_db : DB :=
  advance_many ["t1"; "t2"; "t3"; "t4"] (tracking_request "abcdefghij") bob_db.

(** Alice registers, and registers again in capitals. *)
Definition alice_request : Request :=
  mkRequest None ""
    (Body.mk (JString "Alice") (JString "a@b.com") (JString "x")
       JUndefined JUndefined JUndefined JUndefined).
Definition alice_again_request : Request :=
  mkRequest None ""
    (Body.mk JUndefined (JString "A@B.COM") (JString "y")
       JUndefined JUndefined JUndefined JUndefined).

(** ** Further predicates on the store *)

(** [nextStatuses[Math.min(k, 4)]]: the stage reached by [k] advances of a
    fresh shipment. *)
Definition stage_at (k : nat) : string :=
  default "undefined" (array_get nextStatuses (Z.min (Z.of_nat k) 4)).

(** The statuses of the history are the stages in order, the last stage
    repeated, and the current status is the last of them. *)
Definition history_shape (s : Shipment.t) : Prop :=
  let n := length (Shipment.history s) in
  (1 ≤ n)%nat ∧
  Entry.status <$> Shipment.history s = stage_at <$> seq 0 n ∧
  Shipment.status s = stage_at (n - 1).

(** No two stored users share an address, and every stored address is in
    lower case. *)
Definition emails_ok (db : DB) : Prop :=
  NoDup (User.email <$> users db) ∧
  Forall (λ u, toLowerCase (User.email u) = User.email u) (users db).

(** Every stored tracking code is its own uppercase form. *)
Definition codes_upper (db : DB) : Prop :=
  Forall (λ s, toUpperCase (Shipment.tracking s) = Shipment.tracking s)
    (shipments db).

(** [s'] is [s] after some advances: the same record with a longer history
    and a stage that is not earlier. *)
Definition grows_into (s s' : Shipment.t) : Prop :=
  Shipment.id s' = Shipment.id s ∧
  Shipment.tracking s' = Shipment.tracking s ∧
  Shipment.createdAt s' = Shipment.createdAt s ∧
  Shipment.service s' = Shipment.service s ∧
  Shipment.weight s' = Shipment.weight s ∧
  Shipment.toName s' = Shipment.toName s ∧
  Shipment.toAddress s' = Shipment.toAddress s ∧
  Shipment.owner s' = Shipment.owner s ∧
  Shipment.history s `prefix_of` Shipment.history s' ∧
  (stage_index s ≤ stage_index s')%Z.

(** The responses of the middleware. *)
Definition missing_auth : Response := mkResponse 401 (JError "Missing auth").
Definition invalid_token : Response := mkResponse 401 (JError "Invalid token").

(** Further worked examples: a second user's shipment under Bob's code, a
    shipment with a hand-written status, and one with a lowercase code. *)
Definition eve_request : Request :=
  mkRequest (Some "Bearer u2") ""
    (Body.mk JUndefined JUndefined JUndefined (JString "Eve")
       (JString "2 St") (JNumber (S754_zero false)) JNull).
Definition clash_db : DB :=
  snd (create demo_verify "ABCDEFGHIJ" "s2" "t9" "t9" eve_request bob_db).
Definition odd_shipment : Shipment.t :=
  Shipment.mk "s3" "ODD0000001" "t0" "Lost" (JString "Ground")
    (JString "0.0") (JString "Bob") (JString "1 Rd")
    [Entry.mk "Lost" "t0"] "u1".
Definition lower_shipment : Shipment.t :=
  Shipment.mk "s4" "lower00001" "t0" "Label Created" (JString "Ground")
    (JString "0.0") (JString "Bob") (JString "1 Rd")
    [Entry.mk "Label Created" "t0"] "u1".
Definition alice_db : DB :=
  snd (register demo_sign "u1" "hash:x" alice_request initDB).
Definition alice_login_request : Request :=
  mkRequest None ""
    (Body.mk JUndefined (JString "A@B.COM") (JString "x")
       JUndefined JUndefined JUndefined JUndefined).
Definition eve_shipment : Shipment.t :=
  new_shipment "s2" "ABCDEFGHIJ" "t9" "t9" (body eve_request) "u2".
Definition two_db : DB :=
  snd (create demo_verify "zzzzzzzzzz" "s2" "t9" "t9" eve_request bob_db).

(** * Properties *)

(** ** Strings *)

Lemma toUpperCase_ascii_idem c :
  toUpperCase_ascii (toUpperCase_ascii c) = toUpperCase_ascii c.
Proof. destruct c as [[] [] [] [] [] [] [] []]; reflexivity. Qed.

Lemma toUpperCase_ascii_not_lower c : is_lower (toUpperCase_ascii c) = false.
Proof. destruct c as [[] [] [] [] [] [] [] []]; reflexivity. Qed.

Lemma map_string_length f s :
  String.length (map_string f s) = String.length s.
Proof. induction s as [|c r IH]; simpl; [done | by rewrite IH]. Qed.

Lemma toUpperCase_idem s : toUpperCase (toUpperCase s) = toUpperCase s.
Proof.
  unfold toUpperCase. induction s as [|c r IH]; simpl; [done|].
  by rewrite toUpperCase_ascii_idem, IH.
Qed.

Lemma toUpperCase_length s : String.length (toUpperCase s) = String.length s.
Proof. apply map_string_length. Qed.

Lemma toUpperCase_no_lowercase s : no_lowercase (toUpperCase s) = true.
Proof.
  unfold no_lowercase, toUpperCase. induction s as [|c r IH]; simpl; [done|].
  by rewrite toUpperCase_ascii_not_lower, IH.
Qed.

Lemma split_no_space t : no_space t = true → split " " t = [t].
Proof.
  unfold no_space. induction t as [|c r IH]; simpl; [done|].
  intros [Hc Hr]%andb_true_iff. rewrite IH by done.
  by destruct (Ascii.eqb c " ").
Qed.

(** The header [Bearer <token>] splits into the scheme and the token. *)
Lemma split_bearer t :
  no_space t = true → split " " ("Bearer " +:+ t) !! 1%nat = Some t.
Proof.
  intros H. unfold String.app; simpl. by rewrite (split_no_space t H).
Qed.

(** A number is falsy exactly when it is [0], [-0] or [NaN]. *)
Lemma number_is_falsy_iff n :
  number_is_falsy n = true ↔
  n = S754_zero false ∨ n = S754_zero true ∨ n = S754_nan.
Proof.
  destruct n as [[]|[]| |]; simpl; split; intros; try done; auto;
    by destruct_or!.
Qed.

Lemma falsy_cases v : falsy v = true ↔ falsy_value v.
Proof.
  unfold falsy, falsy_value. destruct v as [| |[]|n|[|c r]|t]; simpl.
  all: try (split; [intros _; by eauto 10 | done]).
  all: try (split; [done | intros [?|[?|[?|[(?&?&?)|?]]]]; by simplify_eq]).
  rewrite negb_involutive. split.
  - intros H. do 3 right. left. by exists n.
  - intros [?|[?|[?|[(m & ? & ?)|?]]]]; by simplify_eq.
Qed.

Lemma falsy_truthy v : falsy v = false ↔ truthy v = true.
Proof. unfold falsy. by destruct (truthy v). Qed.

Lemma or_else_truthy v d : truthy v = true → or_else v d = v.
Proof. unfold or_else. by intros ->. Qed.

Lemma or_else_falsy v d : truthy v = false → or_else v d = d.
Proof. unfold or_else. by intros ->. Qed.

(** ** The stage list *)

Lemma indexOf_cases cur :
  (cur = "Label Created" ∧ indexOf nextStatuses cur = 0%Z) ∨
  (cur = "Picked Up" ∧ indexOf nextStatuses cur = 1%Z) ∨
  (cur = "In Transit" ∧ indexOf nextStatuses cur = 2%Z) ∨
  (cur = "Out for Delivery" ∧ indexOf nextStatuses cur = 3%Z) ∨
  (cur = "Delivered" ∧ indexOf nextStatuses cur = 4%Z) ∨
  ((cur ∉ nextStatuses) ∧ indexOf nextStatuses cur = (-1)%Z).
Proof.
  unfold indexOf, nextStatuses. cbn [list_find].
  repeat (destruct (decide _) as [<-|?]; [cbn; auto 10 | cbn]).
  do 5 right. split; [|done].
  rewrite !elem_of_cons, elem_of_nil. intuition congruence.
Qed.

(** The index handed to [nextStatuses[...]] is always inside the array. *)
Lemma next_status_defined cur :
  ∃ next, next_status cur = Some next ∧ next ∈ nextStatuses.
Proof.
  unfold next_status.
  destruct (indexOf_cases cur) as [H|[H|[H|[H|[H|H]]]]];
    destruct H as [_ ->]; cbn; eexists; (split; [reflexivity|]);
    unfold nextStatuses; rewrite !elem_of_cons; tauto.
Qed.

Lemma next_status_index cur next :
  next_status cur = Some next →
  indexOf nextStatuses next = Z.min (indexOf nextStatuses cur + 1) 4.
Proof.
  unfold next_status.
  destruct (indexOf_cases cur) as [H|[H|[H|[H|[H|H]]]]];
    destruct H as [_ ->]; intros E; vm_compute in E; by simplify_eq.
Qed.

Lemma stage_index_Delivered s :
  stage_index s = 4%Z ↔ Shipment.status s = "Delivered".
Proof.
  unfold stage_index.
  destruct (indexOf_cases (Shipment.status s)) as [H|[H|[H|[H|[H|H]]]]];
    destruct H as [E ->]; split; intros; try done; try by rewrite E in *.
  destruct E. rewrite H. unfold nextStatuses. rewrite !elem_of_cons. tauto.
Qed.

(** ** One shipment *)

Lemma advance_shipment_spec now s :
  ∃ next,
    next_status (Shipment.status s) = Some next ∧
    advance_shipment now s =
      Shipment.mk (Shipment.id s) (Shipment.tracking s)
        (Shipment.createdAt s) next (Shipment.service s) (Shipment.weight s)
        (Shipment.toName s) (Shipment.toAddress s)
        (Shipment.history s ++ [Entry.mk next now]) (Shipment.owner s).
Proof.
  destruct (next_status_defined (Shipment.status s)) as (next & E & _).
  exists next. split; [done|]. unfold advance_shipment. by rewrite E.
Qed.

Lemma advance_shipment_tracking now s :
  Shipment.tracking (advance_shipment now s) = Shipment.tracking s.
Proof. done. Qed.

Lemma history_ok_spec s : history_ok s = true ↔ history_matches s.
Proof.
  unfold history_ok, history_matches.
  destruct (last (Shipment.history s)) as [e|].
  - rewrite bool_decide_eq_true. split; [eauto|].
    by intros (e' & [= <-] & ?).
  - split; [done|]. by intros (e' & ? & _).
Qed.

Lemma advance_shipment_history_ok now s :
  history_ok (advance_shipment now s) = true.
Proof.
  unfold history_ok, advance_shipment; simpl.
  rewrite last_snoc; simpl. by apply bool_decide_eq_true.
Qed.

Lemma new_shipment_history_ok id tracking createdAt at_ b owner :
  history_ok (new_shipment id tracking createdAt at_ b owner) = true.
Proof. done. Qed.

Lemma stage_index_bounds s : (-1 ≤ stage_index s ≤ 4)%Z.
Proof.
  unfold stage_index.
  destruct (indexOf_cases (Shipment.status s)) as [H|[H|[H|[H|[H|H]]]]];
    destruct H as [_ ->]; lia.
Qed.

Lemma stage_index_advance now s :
  stage_index (advance_shipment now s) = Z.min (stage_index s + 1) 4.
Proof.
  destruct (advance_shipment_spec now s) as (next & E & ->).
  unfold stage_index; simpl. by apply next_status_index.
Qed.

Lemma reachable_stage s : reachable s → (0 ≤ stage_index s ≤ 4)%Z.
Proof.
  induction 1 as [|now s _ IH]; [by vm_compute|].
  rewrite stage_index_advance. lia.
Qed.

Lemma advance_times_snoc nows now s :
  advance_times (nows ++ [now]) s = advance_shipment now (advance_times nows s).
Proof. unfold advance_times. by rewrite foldl_app. Qed.

Lemma advance_times_tracking nows s :
  Shipment.tracking (advance_times nows s) = Shipment.tracking s.
Proof.
  induction nows as [|now nows IH] using rev_ind; [done|].
  by rewrite advance_times_snoc, advance_shipment_tracking.
Qed.

Lemma stage_index_advance_times nows s :
  stage_index (advance_times nows s)
  = Z.min (stage_index s + Z.of_nat (length nows)) 4.
Proof.
  induction nows as [|now nows IH] using rev_ind.
  - pose proof (stage_index_bounds s). simpl. lia.
  - rewrite advance_times_snoc, stage_index_advance, IH, length_app. simpl. lia.
Qed.

Lemma advance_times_history_length nows s :
  length (Shipment.history (advance_times nows s))
  = length (Shipment.history s) + length nows.
Proof.
  induction nows as [|now nows IH] using rev_ind; [simpl; lia|].
  rewrite advance_times_snoc.
  destruct (advance_shipment_spec now (advance_times nows s)) as (next & _ & ->).
  simpl. rewrite !length_app, IH. simpl. lia.
Qed.

Lemma advance_times_history_stages nows s :
  Forall (λ e, Entry.status e ∈ nextStatuses) (Shipment.history s) →
  Forall (λ e, Entry.status e ∈ nextStatuses)
    (Shipment.history (advance_times nows s)).
Proof.
  intros Hs. induction nows as [|now nows IH] using rev_ind; [done|].
  rewrite advance_times_snoc.
  destruct (next_status_defined (Shipment.status (advance_times nows s)))
    as (next & E & Hin).
  unfold advance_shipment. rewrite E. simpl.
  apply Forall_app. split; [done|]. by apply Forall_singleton.
Qed.

(** The statuses recorded by [n] advances of a shipment at stage [i]. *)
Lemma advance_times_statuses_from nows s :
  Entry.status <$> Shipment.history (advance_times nows s)
  = (Entry.status <$> Shipment.history s)
    ++ ((λ k, default "undefined"
                (array_get nextStatuses
                   (Z.min (stage_index s + Z.of_nat k) 4)))
        <$> seq 1 (length nows)).
Proof.
  induction nows as [|now nows IH] using rev_ind.
  - simpl. by rewrite app_nil_r.
  - rewrite advance_times_snoc.
    pose proof (stage_index_advance_times nows s) as Hi.
    destruct (advance_shipment_spec now (advance_times nows s))
      as (next & En & ->). simpl.
    rewrite fmap_app, IH, length_app, seq_app, fmap_app, app_assoc. simpl.
    do 3 f_equal.
    pose proof (next_status_index _ _ En) as Hn.
    fold (stage_index (advance_times nows s)) in Hn. rewrite Hi in Hn.
    replace (Z.min (stage_index s + Z.of_nat (S (length nows))) 4)
      with (indexOf nextStatuses next) by lia.
    destruct (next_status_defined (Shipment.status (advance_times nows s)))
      as (next' & En' & Hin). rewrite En in En'. simplify_eq.
    revert Hin. unfold nextStatuses. rewrite !elem_of_cons, elem_of_nil.
    intros [->|[->|[->|[->|[->|[]]]]]]; reflexivity.
Qed.

Lemma advance_times_history_statuses nows s at_ :
  Shipment.status s = "Label Created" →
  Shipment.history s = [Entry.mk "Label Created" at_] →
  (4 ≤ length nows)%nat →
  Entry.status <$> Shipment.history (advance_times nows s)
  = nextStatuses ++ replicate (length nows - 4) "Delivered".
Proof.
  intros Hst Hh HN. rewrite advance_times_statuses_from, Hh.
  unfold stage_index. rewrite Hst. change (indexOf _ _) with 0%Z.
  replace (length nows) with (4 + (length nows - 4)) at 1 by lia.
  rewrite seq_app, fmap_app. simpl. do 5 f_equal.
  generalize (length nows - 4). intros n.
  assert (Ha : (4 ≤ 5)%nat) by lia. revert Ha.
  generalize 5.
  intros a Ha. revert a Ha.
  induction n as [|n IH]; intros a Ha; [done|].
  simpl. rewrite IH by lia. f_equal.
  by replace (Z.min (0 + Z.of_nat a) 4) with 4%Z by lia.
Qed.

(** The history only grows: what was recorded stays, in place. *)
Lemma advance_times_history_prefix nows s :
  Shipment.history s `prefix_of` Shipment.history (advance_times nows s).
Proof.
  induction nows as [|now nows IH] using rev_ind; [done|].
  rewrite advance_times_snoc. unfold advance_shipment at 1. simpl.
  by apply prefix_app_r.
Qed.

(** ** The store: finding and advancing a shipment *)

Lemma find_tracking_Some tracking l i s :
  find_tracking tracking l = Some (i, s) ↔
    l !! i = Some s ∧ Shipment.tracking s = toUpperCase tracking ∧
    ∀ j y, l !! j = Some y → j < i →
           Shipment.tracking y ≠ toUpperCase tracking.
Proof.
  exact (list_find_Some
           (λ x, Shipment.tracking x = toUpperCase tracking) l i s).
Qed.

Lemma find_tracking_None tracking l :
  find_tracking tracking l = None ↔
    Forall (λ x, Shipment.tracking x ≠ toUpperCase tracking) l.
Proof.
  exact (list_find_None
           (λ x, Shipment.tracking x = toUpperCase tracking) l).
Qed.

Lemma find_tracking_upper tracking l :
  find_tracking (toUpperCase tracking) l = find_tracking tracking l.
Proof. unfold find_tracking. by rewrite toUpperCase_idem. Qed.

(** Replacing the found shipment by one with the same tracking code keeps
    it the one that is found. *)
Lemma find_tracking_insert tracking l i s s' :
  find_tracking tracking l = Some (i, s) →
  Shipment.tracking s' = Shipment.tracking s →
  find_tracking tracking (<[i := s']> l) = Some (i, s').
Proof.
  rewrite !find_tracking_Some. intros (Hi & Ht & Hfirst) Hs'.
  split_and!.
  - apply list_lookup_insert_eq. by eapply lookup_lt_Some.
  - congruence.
  - intros j y Hj Hlt. rewrite list_lookup_insert_ne in Hj by lia. eauto.
Qed.

(** A shipment pushed behind shipments with other tracking codes is the
    one its code finds. *)
Lemma find_tracking_push tracking l s :
  Forall (λ x, Shipment.tracking x ≠ toUpperCase tracking) l →
  Shipment.tracking s = toUpperCase tracking →
  find_tracking tracking (l ++ [s]) = Some (length l, s).
Proof.
  intros Hl Hs. apply find_tracking_Some. split_and!.
  - by rewrite lookup_app_r, Nat.sub_diag by lia.
  - done.
  - intros j y Hj Hlt. rewrite lookup_app_l in Hj by done.
    rewrite Forall_lookup in Hl. by apply (Hl j y).
Qed.

Lemma advance_found now req db i s :
  find_tracking (params_tracking req) (shipments db) = Some (i, s) →
  advance now req db =
    (res_json (JShipment (advance_shipment now s)),
     mkDB (users db) (<[i := advance_shipment now s]> (shipments db))).
Proof. intros E. unfold advance. by rewrite E. Qed.

Lemma advance_not_found now req db :
  find_tracking (params_tracking req) (shipments db) = None →
  advance now req db = (res_status 404 (JError "Not found"), db).
Proof. intros E. unfold advance. by rewrite E. Qed.

Lemma advance_many_found nows req db i s :
  find_tracking (params_tracking req) (shipments db) = Some (i, s) →
  advance_many nows req db =
    mkDB (users db) (<[i := advance_times nows s]> (shipments db)).
Proof.
  revert db s. induction nows as [|now nows IH]; intros db s E.
  - simpl. apply find_tracking_Some in E as (Hi & _).
    rewrite list_insert_id by done. by destruct db.
  - simpl. rewrite (advance_found _ _ _ _ _ E). simpl.
    rewrite (IH _ (advance_shipment now s)); simpl.
    + by rewrite list_insert_insert_eq.
    + by apply (find_tracking_insert _ _ _ s).
Qed.

Lemma advance_many_not_found nows req db :
  find_tracking (params_tracking req) (shipments db) = None →
  advance_many nows req db = db.
Proof.
  intros E. induction nows as [|now nows IH]; [done|].
  simpl. by rewrite (advance_not_found _ _ _ E).
Qed.

(** ** The store: invariants of every route *)

Section ServerFacts.

Variable jwt_sign : Payload → string.
Variable jwt_verify : string → option Payload.
Variable bcrypt_compare : string → string → bool.

Lemma authMiddleware_rejects req r :
  authMiddleware jwt_verify req = inl r → status_code r = 401.
Proof.
  unfold authMiddleware. repeat case_match; intros; by simplify_eq.
Qed.

(** A token that verifies, sent as [Bearer <token>], passes the
    middleware with the payload it carries. *)
Lemma bearer_authorizes token payload tracking b :
  jwt_verify token = Some payload →
  no_space token = true →
  authMiddleware jwt_verify
    (mkRequest (Some ("Bearer " +:+ token)) tracking b) = inr payload.
Proof.
  intros Hv Hs. pose proof (split_bearer _ Hs) as E.
  unfold authMiddleware. simpl in *. by rewrite E, Hv.
Qed.

(** The token of a successful [login] is signed over the id and address of
    the stored user that the response shows. *)
Lemma login_token req db token user :
  (login jwt_sign bcrypt_compare req db).1
    = Some (mkResponse 200 (JAuth token user)) →
  token = jwt_sign (mkPayload (pub_id user) (pub_email user)) ∧
  ∃ u, u ∈ users db ∧ public u = user.
Proof.
  unfold login. destruct (falsy _ || falsy _); [done|].
  destruct (Body.email (body req)) as [| |?|?|e|?]; simpl;
    try (by destruct (users db)).
  destruct (find_email e (users db)) as [[i u]|] eqn:E; [|done].
  destruct (Body.password (body req)) as [| |?|?|p|?]; try done.
  destruct (bcrypt_compare _ _); [|done].
  simpl. intros [= <- <-]. split; [done|]. exists u. split; [|done].
  unfold find_email in E.
  apply (list_find_Some (λ u, User.email u = _)) in E as (Hi & _).
  apply list_elem_of_lookup. eauto.
Qed.

(** With the token of a login, [my_shipments] lists the shipments owned by
    the user who logged in. *)
Lemma login_token_lists_own req db token user tracking b db' :
  (login jwt_sign bcrypt_compare req db).1
    = Some (mkResponse 200 (JAuth token user)) →
  let payload := mkPayload (pub_id user) (pub_email user) in
  jwt_verify (jwt_sign payload) = Some payload →
  no_space (jwt_sign payload) = true →
  my_shipments jwt_verify
    (mkRequest (Some ("Bearer " +:+ token)) tracking b) db'
  = (mkResponse 200
       (JShipments
          (filter (λ s, Shipment.owner s = pub_id user) (shipments db'))),
     db').
Proof.
  intros Hl payload Hv Hs. apply login_token in Hl as (-> & _).
  unfold my_shipments. by rewrite (bearer_authorizes _ _ _ _ Hv Hs).
Qed.

Lemma create_ok_inv nanoid10 nanoid createdAt at_ req db s :
  (create jwt_verify nanoid10 nanoid createdAt at_ req db).1
    = mkResponse 200 (JShipment s) →
  ∃ user,
    authMiddleware jwt_verify req = inr user ∧
    truthy (Body.toName (body req)) = true ∧
    truthy (Body.toAddress (body req)) = true ∧
    s = new_shipment nanoid (toUpperCase nanoid10) createdAt at_
          (body req) (payload_id user) ∧
    (create jwt_verify nanoid10 nanoid createdAt at_ req db).2
      = mkDB (users db) (shipments db ++ [s]).
Proof.
  unfold create, falsy.
  destruct (authMiddleware jwt_verify req) as [r|user] eqn:Ea.
  { apply authMiddleware_rejects in Ea. simpl. by intros ->. }
  destruct (truthy (Body.toName (body req)));
    destruct (truthy (Body.toAddress (body req))); simpl; try done.
  intros [= <-]. by exists user.
Qed.

Lemma register_ok_inv nanoid hash req db :
  status_code <$> (register jwt_sign nanoid hash req db).1 = Some 200 →
  ∃ e,
    Body.email (body req) = JString e ∧
    truthy (Body.email (body req)) = true ∧
    truthy (Body.password (body req)) = true ∧
    find_email e (users db) = None ∧
    register jwt_sign nanoid hash req db
    = (let user := User.mk nanoid
                     (to_json (or_else (Body.name (body req)) (JString "")))
                     (toLowerCase e) hash in
       (Some (mkResponse 200
                (JAuth (jwt_sign (mkPayload nanoid (toLowerCase e)))
                   (mkPublicUser nanoid (User.name user) (toLowerCase e)))),
        mkDB (users db ++ [user]) (shipments db))).
Proof.
  unfold register, falsy.
  destruct (truthy (Body.email (body req))) eqn:Te;
    destruct (truthy (Body.password (body req))) eqn:Tp; simpl; try done.
  destruct (Body.email (body req)) as [| |?|?|e|?]; simpl;
    try (destruct (users db); simpl; [|done];
         by destruct (Body.password (body req))).
  destruct (find_email e (users db)) as [[i u]|] eqn:E; [done|].
  destruct (Body.password (body req)) as [| |?|?|p|?]; try done.
  intros _. by exists e.
Qed.

(** A stored user with the lowercased address makes [register] answer
    "User exists" to a request that passes the field guard. *)
Lemma register_conflict nanoid hash req db u e :
  u ∈ users db →
  Body.email (body req) = JString e →
  User.email u = toLowerCase e →
  truthy (Body.email (body req)) = true →
  register jwt_sign nanoid hash req db =
    (if truthy (Body.password (body req))
     then Some (mkResponse 400 (JError "User exists"))
     else Some (mkResponse 400 (JError "email & password required")),
     db).
Proof.
  intros Hu Ee He Ht. unfold register, falsy. rewrite Ht. simpl.
  destruct (truthy (Body.password (body req))); simpl; [|done].
  rewrite Ee. simpl.
  destruct (find_email e (users db)) as [[i u']|] eqn:E; [done|].
  unfold find_email in E.
  pose proof (proj1 (list_find_None
    (λ u, User.email u = toLowerCase e) (users db)) E) as Hn.
  rewrite Forall_forall in Hn. by destruct (Hn u Hu).
Qed.

(** What a route leaves of the store: users are only ever added at the
    end, shipments are pushed at the end or advanced in place. *)
Lemma step_shape db db' :
  step jwt_sign jwt_verify bcrypt_compare db db' →
  (∃ us, users db' = users db ++ us) ∧
  (shipments db' = shipments db ∨
   (∃ s, shipments db' = shipments db ++ [s] ∧
         history_ok s = true ∧ reachable s) ∨
   (∃ now i s, shipments db !! i = Some s ∧
      shipments db' = <[i := advance_shipment now s]> (shipments db))).
Proof.
  assert (Hid : ∀ d : DB, ∃ us, users d = users d ++ us)
    by (intros d; exists []; by rewrite app_nil_r).
  destruct 1 as [nanoid hash req db | req db | n10 n c a req db
                | req db | req db | now req db].
  - unfold register. repeat case_match; simpl; eauto.
  - unfold login. repeat case_match; simpl; eauto.
  - unfold create. repeat case_match; simpl; eauto.
    split; [eauto|]. right; left. eexists. split_and!; try done.
    apply reachable_new.
  - unfold lookup. repeat case_match; simpl; eauto.
  - unfold my_shipments. repeat case_match; simpl; eauto.
  - destruct (find_tracking (params_tracking req) (shipments db))
      as [[i s]|] eqn:E.
    + rewrite (advance_found _ _ _ _ _ E). simpl. split; [eauto|].
      right; right. apply find_tracking_Some in E as (Hi & _). eauto.
    + rewrite (advance_not_found _ _ _ E). eauto.
Qed.

Lemma step_history_ok db db' :
  step jwt_sign jwt_verify bcrypt_compare db db' →
  Forall (λ s, history_ok s = true) (shipments db) →
  Forall (λ s, history_ok s = true) (shipments db').
Proof.
  intros Hstep Hok.
  destruct (step_shape _ _ Hstep) as [_ [->|[(s & -> & Hs & _)|H]]].
  - done.
  - apply Forall_app. split; [done|]. by apply Forall_singleton.
  - destruct H as (now & i & s & _ & ->).
    apply Forall_insert; [done|]. apply advance_shipment_history_ok.
Qed.

Lemma step_reachable db db' :
  step jwt_sign jwt_verify bcrypt_compare db db' →
  Forall reachable (shipments db) → Forall reachable (shipments db').
Proof.
  intros Hstep Hok.
  destruct (step_shape _ _ Hstep) as [_ [->|[(s & -> & _ & Hs)|H]]].
  - done.
  - apply Forall_app. split; [done|]. by apply Forall_singleton.
  - destruct H as (now & i & s & Hi & ->).
    apply Forall_insert; [done|]. apply reachable_advance.
    rewrite Forall_lookup in Hok. by apply (Hok i s).
Qed.

(** Every shipment of a store that grew from the empty store was created
    and then only advanced. *)
Lemma store_reachable db :
  rtc (step jwt_sign jwt_verify bcrypt_compare) initDB db →
  Forall reachable (shipments db).
Proof.
  revert db. apply rtc_ind_r.
  - constructor.
  - intros d d' _ Hstep Hd. by apply (step_reachable d d').
Qed.

Lemma steps_users_kept db db' :
  rtc (step jwt_sign jwt_verify bcrypt_compare) db db' →
  ∃ us, users db' = users db ++ us.
Proof.
  induction 1 as [d | d1 d2 d3 H12 _ (us & IH)].
  - exists []. by rewrite app_nil_r.
  - destruct (step_shape _ _ H12) as [(us' & E) _].
    exists (us' ++ us). by rewrite IH, E, app_assoc.
Qed.

End ServerFacts.

(** * The shipment routes *)

(** ** Advance *)

(** C1. [advance] answers 404 "Not found" and leaves the store alone when
    no stored tracking code equals the uppercased code; otherwise it takes
    the first shipment [s] with that code, answers 200 with the shipment
    [s'] that now sits in its place, where the status of [s'] is
    [stages[min(index(status s) + 1, 4)]] over the five stages and its
    history is that of [s] followed by one entry carrying the new status.
    For a shipment that is already "Delivered" the call succeeds just the
    same, the status stays "Delivered" and a further "Delivered" entry is
    appended. *)
Theorem advance_correct (now : string) (req : Request) (db : DB) :
  let code := toUpperCase (params_tracking req) in
  let r := advance now req db in
  (Forall (λ x, Shipment.tracking x ≠ code) (shipments db) →
   r = (mkResponse 404 (JError "Not found"), db)) ∧
  (status_code r.1 = 404 ↔
   Forall (λ x, Shipment.tracking x ≠ code) (shipments db)) ∧
  (∀ i s,
     shipments db !! i = Some s →
     Shipment.tracking s = code →
     (∀ j y, shipments db !! j = Some y → j < i →
             Shipment.tracking y ≠ code) →
     ∃ s',
       r.1 = mkResponse 200 (JShipment s') ∧
       shipments r.2 !! i = Some s' ∧
       array_get nextStatuses
         (Z.min (indexOf nextStatuses (Shipment.status s) + 1) 4)
         = Some (Shipment.status s') ∧
       Shipment.history s'
         = Shipment.history s ++ [Entry.mk (Shipment.status s') now] ∧
       (Shipment.status s = "Delivered" →
        Shipment.status s' = "Delivered" ∧
        Shipment.history s'
          = Shipment.history s ++ [Entry.mk "Delivered" now])).
Proof.
  intros code r. split_and!.
  - intros Hnone. apply advance_not_found. by apply find_tracking_None.
  - subst r code. rewrite <- find_tracking_None. unfold advance.
    by destruct (find_tracking _ _) as [[i s]|].
  - intros i s Hi Ht Hfirst.
    assert (E : find_tracking (params_tracking req) (shipments db)
                = Some (i, s)) by (by apply find_tracking_Some).
    subst r. rewrite (advance_found _ _ _ _ _ E).
    destruct (advance_shipment_spec now s) as (next & En & ->).
    eexists. simpl. split_and!; try reflexivity.
    + apply list_lookup_insert_eq. by eapply lookup_lt_Some.
    + exact En.
    + intros Hd. rewrite Hd in En. vm_compute in En. by simplify_eq.
Qed.

(** C10. A call of [advance] never touches the users.  When it answers 404
    the whole store is as before.  When it succeeds, exactly one position
    of the shipment array is rewritten: it held the first shipment with
    the requested code, every other position holds what it held, and the
    rewritten shipment keeps its id, tracking code, creation time,
    service, weight, recipient and owner. *)
Theorem advance_frame (now : string) (req : Request) (db : DB) :
  let r := advance now req db in
  users r.2 = users db ∧
  length (shipments r.2) = length (shipments db) ∧
  ((status_code r.1 = 404 ∧ r.2 = db) ∨
   (status_code r.1 = 200 ∧
    ∃ i s s',
      shipments db !! i = Some s ∧
      Shipment.tracking s = toUpperCase (params_tracking req) ∧
      shipments r.2 !! i = Some s' ∧
      (∀ j, j ≠ i → shipments r.2 !! j = shipments db !! j) ∧
      Shipment.id s' = Shipment.id s ∧
      Shipment.tracking s' = Shipment.tracking s ∧
      Shipment.createdAt s' = Shipment.createdAt s ∧
      Shipment.service s' = Shipment.service s ∧
      Shipment.weight s' = Shipment.weight s ∧
      Shipment.toName s' = Shipment.toName s ∧
      Shipment.toAddress s' = Shipment.toAddress s ∧
      Shipment.owner s' = Shipment.owner s)).
Proof.
  intros r. subst r.
  destruct (find_tracking (params_tracking req) (shipments db))
    as [[i s]|] eqn:E.
  - rewrite (advance_found _ _ _ _ _ E). simpl.
    apply find_tracking_Some in E as (Hi & Ht & _).
    split_and!; [done | apply length_insert |].
    right. split; [done|].
    exists i, s, (advance_shipment now s). split_and!; try done.
    + apply list_lookup_insert_eq. by eapply lookup_lt_Some.
    + intros j Hj. by apply list_lookup_insert_ne.
  - rewrite (advance_not_found _ _ _ E). simpl. auto.
Qed.

(** ** Lookup *)

(** C8. [lookup] never changes the store and has two outcomes only: 200
    with the first stored shipment whose tracking code equals the
    uppercased code, whoever owns it, or 404 "Not found" when there is
    none.  The answer does not depend on the authorization header or on
    the body of the request. *)
Theorem lookup_correct (req : Request) (db : DB) :
  let code := toUpperCase (params_tracking req) in
  let r := lookup req db in
  r.2 = db ∧
  ((∃ i s, shipments db !! i = Some s ∧ Shipment.tracking s = code ∧
           (∀ j y, shipments db !! j = Some y → j < i →
                   Shipment.tracking y ≠ code) ∧
           r.1 = mkResponse 200 (JShipment s)) ∨
   (Forall (λ x, Shipment.tracking x ≠ code) (shipments db) ∧
    r.1 = mkResponse 404 (JError "Not found"))) ∧
  (∀ s, s ∈ shipments db → Shipment.tracking s = code →
        status_code r.1 = 200) ∧
  (∀ auth b, lookup (mkRequest auth (params_tracking req) b) db = r).
Proof.
  intros code r. subst r. unfold lookup.
  destruct (find_tracking (params_tracking req) (shipments db))
    as [[i s]|] eqn:E; simpl; rewrite ?E.
  - apply find_tracking_Some in E as (Hi & Ht & Hfirst).
    split_and!; [done | left; eauto 10 | done | done].
  - apply find_tracking_None in E.
    split_and!; [done | right; eauto | | done].
    intros s Hs Ht. rewrite Forall_forall in E. by destruct (E s Hs).
Qed.

(** ** Letter case of the tracking code *)

(** C9. [lookup] and [advance] read the tracking code up to letter case: a
    request carrying the uppercased code gets the same answer and leaves
    the same store as the request carrying the code as typed, and so do
    any two requests whose codes have the same uppercase form. *)
Theorem tracking_case_insensitive (now : string) (req : Request) (db : DB) :
  let req_upper :=
    mkRequest (headers_authorization req)
      (toUpperCase (params_tracking req)) (body req) in
  lookup req_upper db = lookup req db ∧
  advance now req_upper db = advance now req db ∧
  (∀ req2,
     toUpperCase (params_tracking req2) = toUpperCase (params_tracking req) →
     lookup req2 db = lookup req db ∧
     advance now req2 db = advance now req db).
Proof.
  simpl. unfold lookup, advance; simpl.
  rewrite find_tracking_upper. split_and!; try done.
  intros req2 E. unfold find_tracking. by rewrite E.
Qed.

(** ** The history and the status *)

(** C3. The shipment written by a successful [create] and the shipment
    rewritten by a successful [advance] have a non-empty history whose
    last entry carries the shipment's status; and every route keeps this
    true of all stored shipments. *)
Theorem history_ends_with_status
    (jwt_sign : Payload → string) (jwt_verify : string → option Payload)
    (bcrypt_compare : string → string → bool) :
  (∀ nanoid10 nanoid createdAt at_ req db s,
     (create jwt_verify nanoid10 nanoid createdAt at_ req db).1
       = mkResponse 200 (JShipment s) →
     s ∈ shipments (create jwt_verify nanoid10 nanoid createdAt at_ req db).2 ∧
     history_matches s) ∧
  (∀ now req db s,
     (advance now req db).1 = mkResponse 200 (JShipment s) →
     s ∈ shipments (advance now req db).2 ∧
     history_matches s) ∧
  (∀ db db',
     step jwt_sign jwt_verify bcrypt_compare db db' →
     Forall history_matches (shipments db) →
     Forall history_matches (shipments db')).
Proof.
  split_and!.
  - intros n10 n c a req db s Hc.
    apply create_ok_inv in Hc as (user & _ & _ & _ & -> & ->). split.
    + apply elem_of_app. right. by apply list_elem_of_singleton.
    + by apply history_ok_spec.
  - intros now req db s.
    destruct (find_tracking (params_tracking req) (shipments db))
      as [[i s0]|] eqn:E.
    + rewrite (advance_found _ _ _ _ _ E). simpl. intros [= <-].
      apply find_tracking_Some in E as (Hi & _). split.
      * apply list_elem_of_lookup. exists i.
        apply list_lookup_insert_eq. by eapply lookup_lt_Some.
      * apply history_ok_spec, advance_shipment_history_ok.
    + by rewrite (advance_not_found _ _ _ E).
  - intros db db' Hstep Hok.
    eapply Forall_impl; [|intros s; apply history_ok_spec].
    apply (step_history_ok _ _ _ _ _ Hstep).
    eapply Forall_impl; [exact Hok|]. intros s. apply history_ok_spec.
Qed.

(** C4. In a store that the server built up from the empty one, every
    shipment was created and then only advanced.  A call of [advance] that
    finds such a shipment [s] answers 200 and puts [s'] in its place, where
    the position [k] of the status of [s] in the stage list is one of the
    five stages and the position [k'] of the status of [s'] is [k + 1] when
    [k] is not the last stage and [k] itself at the last stage: never
    back, never more than one stage forward.  Every other stored shipment
    keeps its status. *)
Theorem status_one_stage_forward
    (jwt_sign : Payload → string) (jwt_verify : string → option Payload)
    (bcrypt_compare : string → string → bool)
    (db : DB) (now : string) (req : Request) (i : nat) (s : Shipment.t) :
  rtc (step jwt_sign jwt_verify bcrypt_compare) initDB db →
  shipments db !! i = Some s →
  Shipment.tracking s = toUpperCase (params_tracking req) →
  (∀ j y, shipments db !! j = Some y → j < i →
          Shipment.tracking y ≠ toUpperCase (params_tracking req)) →
  ∃ s',
    (advance now req db).1 = mkResponse 200 (JShipment s') ∧
    shipments (advance now req db).2 !! i = Some s' ∧
    (∀ j, j ≠ i →
          shipments (advance now req db).2 !! j = shipments db !! j) ∧
    let k := indexOf nextStatuses (Shipment.status s) in
    let k' := indexOf nextStatuses (Shipment.status s') in
    (0 ≤ k ≤ 4)%Z ∧
    ((k < 4 ∧ k' = k + 1)%Z ∨ (k = 4 ∧ k' = k)%Z) ∧
    array_get nextStatuses k = Some (Shipment.status s) ∧
    array_get nextStatuses k' = Some (Shipment.status s').
Proof.
  intros Hsteps Hi Ht Hfirst.
  assert (E : find_tracking (params_tracking req) (shipments db)
              = Some (i, s)) by (by apply find_tracking_Some).
  rewrite (advance_found _ _ _ _ _ E). simpl.
  exists (advance_shipment now s).
  assert (Hr : reachable s).
  { pose proof (store_reachable _ _ _ _ Hsteps) as HF.
    rewrite Forall_lookup in HF. by apply (HF i s). }
  assert (Hstage : ∀ x, reachable x →
            array_get nextStatuses (stage_index x) = Some (Shipment.status x)).
  { intros x Hx. apply reachable_stage in Hx. revert Hx. unfold stage_index.
    destruct (indexOf_cases (Shipment.status x)) as [H|[H|[H|[H|[H|H]]]]];
      destruct H as [Ex ->]; intros; try lia; by rewrite Ex. }
  pose proof (reachable_stage s Hr) as Hb.
  pose proof (stage_index_advance now s) as Hk'.
  unfold stage_index in Hb, Hk'.
  split_and!.
  - done.
  - apply list_lookup_insert_eq. by eapply lookup_lt_Some.
  - intros j Hj. by apply list_lookup_insert_ne.
  - lia.
  - lia.
  - lia.
  - by apply (Hstage s).
  - apply (Hstage (advance_shipment now s)). by apply reachable_advance.
Qed.

(** ** Listing *)

(** C7. With a token that verifies, [my_shipments] answers 200 with the
    stored shipments whose owner is the id the token carries: each of them
    and no other, as often and in the order in which the store holds them.
    The store is left alone.  Without such a token the answer is 401 and
    lists nothing. *)
Theorem my_shipments_correct
    (jwt_verify : string → option Payload) (req : Request) (db : DB) :
  (∀ user,
     authMiddleware jwt_verify req = inr user →
     ∃ l,
       my_shipments jwt_verify req db = (mkResponse 200 (JShipments l), db) ∧
       (∀ s, s ∈ l ↔ s ∈ shipments db ∧ Shipment.owner s = payload_id user) ∧
       l `sublist_of` shipments db ∧
       l = filter (λ s, Shipment.owner s = payload_id user) (shipments db)) ∧
  (∀ r,
     authMiddleware jwt_verify req = inl r →
     my_shipments jwt_verify req db = (r, db) ∧ status_code r = 401).
Proof.
  split.
  - intros user Ea. unfold my_shipments. rewrite Ea.
    eexists. split_and!; [reflexivity | | apply sublist_filter | done].
    intros s. rewrite list_elem_of_filter. tauto.
  - intros r Ea. unfold my_shipments. rewrite Ea. split; [done|].
    by apply authMiddleware_rejects in Ea.
Qed.

(** ** Advancing a fresh shipment to the end and beyond *)

(** C2, as the specification words it, fails: five advances of Bob's fresh
    shipment leave six history entries, not [min 5 4 + 1 = 5]. *)
Lemma five_advances_six_entries :
  let nows := ["t1"; "t2"; "t3"; "t4"; "t5"] in
  let treq := tracking_request "abcdefghij" in
  ∃ s,
    (lookup treq (advance_many nows treq bob_db)).1
      = mkResponse 200 (JShipment s) ∧
    (4 ≤ length nows)%nat ∧
    Shipment.status s = "Delivered" ∧
    length (Shipment.history s) = 6 ∧
    length (Shipment.history s) ≠ Nat.min (length nows) 4 + 1.
Proof.
  intros nows treq. eexists. split; [vm_compute; reflexivity|].
  simpl. split_and!; [lia | done | done | lia].
Qed.

(** C2, amended. A shipment is created under a tracking code that no
    stored shipment carries and [advance] is then called [N ≥ 4] times with
    that code (in any letter case).  Looked up afterwards, the shipment has
    status "Delivered" and [N + 1] history entries: the five stages in
    order, then one more "Delivered" entry for every call after the
    fourth.  Every entry carries one of the five stages. *)
Theorem advance_to_delivered
    (jwt_verify : string → option Payload)
    (nanoid10 nanoid createdAt at_ : string) (req : Request) (db : DB)
    (s : Shipment.t) (treq : Request) (nows : list string) :
  (create jwt_verify nanoid10 nanoid createdAt at_ req db).1
    = mkResponse 200 (JShipment s) →
  Forall (λ x, Shipment.tracking x ≠ Shipment.tracking s) (shipments db) →
  toUpperCase (params_tracking treq) = Shipment.tracking s →
  (4 ≤ length nows)%nat →
  let db1 := (create jwt_verify nanoid10 nanoid createdAt at_ req db).2 in
  ∃ s',
    (lookup treq (advance_many nows treq db1)).1
      = mkResponse 200 (JShipment s') ∧
    Shipment.status s' = "Delivered" ∧
    length (Shipment.history s') = length nows + 1 ∧
    Entry.status <$> Shipment.history s'
      = nextStatuses ++ replicate (length nows - 4) "Delivered" ∧
    Forall (λ e, Entry.status e ∈ nextStatuses) (Shipment.history s').
Proof.
  intros Hc Hfresh Hcode HN db1.
  apply create_ok_inv in Hc as (user & _ & _ & _ & Hs & Hdb). subst db1.
  rewrite Hdb.
  assert (E : find_tracking (params_tracking treq) (shipments db ++ [s])
              = Some (length (shipments db), s)).
  { apply find_tracking_push; [by rewrite Hcode | done]. }
  rewrite (advance_many_found nows treq
             (mkDB (users db) (shipments db ++ [s])) _ _ E). simpl.
  exists (advance_times nows s). unfold lookup. simpl.
  rewrite (find_tracking_insert _ _ _ _ (advance_times nows s) E)
    by apply advance_times_tracking.
  assert (Hst : Shipment.status s = "Label Created") by by rewrite Hs.
  assert (Hh : Shipment.history s = [Entry.mk "Label Created" at_])
    by by rewrite Hs.
  clear Hs Hdb E Hfresh Hcode.
  split_and!.
  - done.
  - apply stage_index_Delivered. rewrite stage_index_advance_times.
    unfold stage_index. rewrite Hst. change (indexOf _ _) with 0%Z. lia.
  - rewrite advance_times_history_length, Hh. simpl. lia.
  - by apply (advance_times_history_statuses _ _ at_).
  - apply advance_times_history_stages. rewrite Hh.
    apply Forall_singleton. unfold nextStatuses. rewrite !elem_of_cons. tauto.
Qed.

(** ** Creating a shipment *)

(** C6, as the specification words it, fails: a recipient name that is sent
    but empty is not absent from the body, and [create] still answers with
    the validation error. *)
Lemma create_rejects_empty_name :
  let b := Body.mk JUndefined JUndefined JUndefined (JString "")
             (JString "1 Rd") JUndefined JUndefined in
  let req := mkRequest (Some "Bearer u1") "" b in
  authMiddleware demo_verify req = inr (mkPayload "u1" "a@b.com") ∧
  Body.toName b ≠ JUndefined ∧
  Body.toAddress b ≠ JUndefined ∧
  create demo_verify "abcdefghij" "s1" "t0" "t0" req initDB
    = (mkResponse 400 (JError "toName & toAddress required"), initDB).
Proof. by split_and!. Qed.

(** C6, amended. For a request whose token verifies, [create] answers with
    the validation error exactly when [toName] or [toAddress] is falsy: not
    sent, [null], [false], a number that is [0], [-0] or [NaN], or the
    empty string; it then leaves the store alone.  Otherwise it pushes and
    returns a shipment owned by the token's user with status "Label
    Created", a history of the single entry "Label Created", the recipient
    as sent (in the form JSON writes it), and a tracking code that is
    [nanoid(10)] uppercased: ten characters, none of them a lowercase
    letter. *)
Theorem create_correct
    (jwt_verify : string → option Payload)
    (nanoid10 nanoid createdAt at_ : string) (req : Request) (db : DB)
    (user : Payload) :
  authMiddleware jwt_verify req = inr user →
  String.length nanoid10 = 10 →
  let r := create jwt_verify nanoid10 nanoid createdAt at_ req db in
  let toName := Body.toName (body req) in
  let toAddress := Body.toAddress (body req) in
  (r.1 = mkResponse 400 (JError "toName & toAddress required") ↔
   falsy_value toName ∨ falsy_value toAddress) ∧
  (falsy_value toName ∨ falsy_value toAddress → r.2 = db) ∧
  (¬ (falsy_value toName ∨ falsy_value toAddress) →
   ∃ s,
     r = (mkResponse 200 (JShipment s),
          mkDB (users db) (shipments db ++ [s])) ∧
     Shipment.status s = "Label Created" ∧
     Shipment.history s = [Entry.mk "Label Created" at_] ∧
     Shipment.tracking s = toUpperCase nanoid10 ∧
     String.length (Shipment.tracking s) = 10 ∧
     no_lowercase (Shipment.tracking s) = true ∧
     Shipment.owner s = payload_id user ∧
     Shipment.toName s = to_json toName ∧
     Shipment.toAddress s = to_json toAddress).
Proof.
  intros Ea Hlen r toName toAddress. subst r toName toAddress.
  unfold create. rewrite Ea.
  assert (Hb : falsy (Body.toName (body req))
               || falsy (Body.toAddress (body req)) = true ↔
               falsy_value (Body.toName (body req))
               ∨ falsy_value (Body.toAddress (body req))).
  { rewrite orb_true_iff, !falsy_cases. done. }
  destruct (falsy (Body.toName (body req))
            || falsy (Body.toAddress (body req))) eqn:Ef; simpl.
  - split_and!; [tauto | done | tauto].
  - assert (Hnb : ¬ (falsy_value (Body.toName (body req))
                     ∨ falsy_value (Body.toAddress (body req))))
      by (rewrite <- Hb; done).
    split_and!; [split; [done | tauto] | tauto |].
    intros _. eexists. split; [reflexivity|]. simpl.
    split_and!; try done.
    + by rewrite toUpperCase_length.
    + apply toUpperCase_no_lowercase.
Qed.

(** ** Registering *)

(** C5. A registration succeeds; any requests are served; then comes a
    registration whose address equals the first up to letter case.  The
    second registration answers 400 and leaves the store, and so the
    users, as it found them; whenever it carries a password, so that it
    passes the check of the fields, the answer is the conflict
    "User exists", because the lowercased address is that of a stored
    user. *)
Theorem register_twice
    (jwt_sign : Payload → string) (jwt_verify : string → option Payload)
    (bcrypt_compare : string → string → bool)
    (nanoid1 hash1 nanoid2 hash2 : string) (req1 req2 : Request)
    (db db2 : DB) (email1 email2 : string) :
  status_code <$> (register jwt_sign nanoid1 hash1 req1 db).1 = Some 200 →
  Body.email (body req1) = JString email1 →
  Body.email (body req2) = JString email2 →
  same_email email1 email2 →
  rtc (step jwt_sign jwt_verify bcrypt_compare)
    (register jwt_sign nanoid1 hash1 req1 db).2 db2 →
  let r2 := register jwt_sign nanoid2 hash2 req2 db2 in
  status_code <$> r2.1 = Some 400 ∧
  r2.2 = db2 ∧
  (∃ u, u ∈ users db2 ∧ User.email u = toLowerCase email2) ∧
  (truthy (Body.password (body req2)) = true →
   r2.1 = Some (mkResponse 400 (JError "User exists"))).
Proof.
  intros Hok E1 E2 Hsame Hsteps r2. subst r2.
  apply register_ok_inv in Hok as (e & Ee & He1 & _ & _ & Hreg).
  rewrite E1 in Ee. injection Ee as <-.
  rewrite Hreg in Hsteps. simpl in Hsteps.
  apply steps_users_kept in Hsteps as (us & Hus). simpl in Hus.
  set (u := User.mk nanoid1
              (to_json (or_else (Body.name (body req1)) (JString "")))
              (toLowerCase email1) hash1) in *.
  assert (Hu : u ∈ users db2).
  { rewrite Hus. apply elem_of_app. left. apply elem_of_app. right.
    by apply list_elem_of_singleton. }
  assert (He2 : truthy (Body.email (body req2)) = true).
  { rewrite E1 in He1. rewrite E2. unfold same_email in Hsame.
    destruct email1, email2; by simpl in *. }
  rewrite (register_conflict jwt_sign nanoid2 hash2 req2 db2 u email2
             Hu E2 Hsame He2).
  destruct (truthy (Body.password (body req2))); simpl;
    split_and!; try done; by exists u.
Qed.

(** * The specification's example, worked through the theorems *)

Lemma advance_correct_witness :
  ∃ s s',
    shipments bob_delivered_db !! 0%nat = Some s ∧
    Shipment.status s = "Delivered" ∧
    (advance "t5" (tracking_request "abcdefghij") bob_delivered_db).1
      = mkResponse 200 (JShipment s') ∧
    Shipment.status s' = "Delivered" ∧
    Shipment.history s' = Shipment.history s ++ [Entry.mk "Delivered" "t5"].
Proof.
  eexists.
  edestruct (proj2 (proj2 (advance_correct "t5"
                             (tracking_request "abcdefghij")
                             bob_delivered_db)) 0%nat)
    as (s' & Hr & _ & _ & _ & Hd);
    [reflexivity | reflexivity | intros; lia |].
  exists s'. destruct Hd as [Hs Hh]; [reflexivity|].
  split; [reflexivity|]. split; [reflexivity|].
  split; [exact Hr|]. split; [exact Hs | exact Hh].
Defined.

Lemma advance_to_delivered_witness :
  ∃ s',
    (lookup (tracking_request "ABCDEfghij")
       (advance_many ["t1"; "t2"; "t3"; "t4"; "t5"]
          (tracking_request "ABCDEfghij") bob_db)).1
      = mkResponse 200 (JShipment s') ∧
    Shipment.status s' = "Delivered" ∧
    length (Shipment.history s') = 6%nat.
Proof.
  edestruct (advance_to_delivered demo_verify "abcdefghij" "s1" "t0" "t0"
               bob_request initDB bob_shipment
               (tracking_request "ABCDEfghij")
               ["t1"; "t2"; "t3"; "t4"; "t5"])
    as (s' & Hr & Hs & Hl & _);
    [reflexivity | constructor | reflexivity | simpl; lia |].
  exists s'. split; [exact Hr|]. split; [exact Hs | exact Hl].
Defined.

Lemma history_ends_with_status_witness :
  Forall history_matches
    (shipments (advance "t1" (tracking_request "abcdefghij") bob_db).2).
Proof.
  apply (proj2 (proj2 (history_ends_with_status
                         demo_sign demo_verify demo_compare)) bob_db).
  - apply step_advance.
  - apply Forall_singleton. eexists. split; reflexivity.
Defined.

Lemma status_one_stage_forward_witness :
  ∃ s',
    (advance "t1" (tracking_request "abcdefghij") bob_db).1
      = mkResponse 200 (JShipment s') ∧
    indexOf nextStatuses (Shipment.status bob_shipment) = 0%Z ∧
    indexOf nextStatuses (Shipment.status s') = 1%Z.
Proof.
  destruct (status_one_stage_forward demo_sign demo_verify demo_compare
              bob_db "t1" (tracking_request "abcdefghij") 0%nat bob_shipment)
    as (s' & Hr & _ & _ & _ & [[_ Hk]|[Hk _]] & _).
  - apply rtc_once.
    exact (step_create demo_sign demo_verify demo_compare
             "abcdefghij" "s1" "t0" "t0" bob_request initDB).
  - reflexivity.
  - reflexivity.
  - intros j y _ Hlt. lia.
  - exists s'. split; [exact Hr|]. split; [reflexivity | exact Hk].
  - vm_compute in Hk. discriminate Hk.
Defined.

Lemma register_twice_witness :
  let db1 := (register demo_sign "u1" "h1" alice_request initDB).2 in
  register demo_sign "u2" "h2" alice_again_request db1
  = (Some (mkResponse 400 (JError "User exists")), db1).
Proof.
  intros db1.
  destruct (register_twice demo_sign demo_verify demo_compare
              "u1" "h1" "u2" "h2" alice_request alice_again_request
              initDB db1 "a@b.com" "A@B.COM")
    as (_ & Hdb & _ & Hconflict);
    [reflexivity | reflexivity | reflexivity | reflexivity
    | apply rtc_refl |].
  apply injective_projections; [exact (Hconflict eq_refl) | exact Hdb].
Defined.

Lemma create_correct_witness :
  ∃ s,
    create demo_verify "abcdefghij" "s1" "t0" "t0" bob_request initDB
      = (mkResponse 200 (JShipment s), mkDB [] [s]) ∧
    Shipment.status s = "Label Created" ∧
    Shipment.tracking s = "ABCDEFGHIJ" ∧
    length (Shipment.history s) = 1%nat.
Proof.
  destruct (create_correct demo_verify "abcdefghij" "s1" "t0" "t0"
              bob_request initDB (mkPayload "u1" "a@b.com"))
    as (_ & _ & Hok); [reflexivity | reflexivity |].
  destruct Hok as (s & Hr & Hs & Hh & Ht & _).
  - intros [H|H]; apply falsy_cases in H; discriminate H.
  - exists s. split; [exact Hr|]. split; [exact Hs|].
    split; [exact Ht|]. rewrite Hh. reflexivity.
Defined.

Lemma my_shipments_correct_witness :
  ∃ l,
    my_shipments demo_verify bob_request bob_db
      = (mkResponse 200 (JShipments l), bob_db) ∧
    l = [bob_shipment].
Proof.
  destruct (proj1 (my_shipments_correct demo_verify bob_request bob_db)
              (mkPayload "u1" "a@b.com"))
    as (l & Hr & _ & _ & Hl); [reflexivity|].
  exists l. split; [exact Hr|]. rewrite Hl. reflexivity.
Defined.

Lemma lookup_correct_witness :
  status_code (lookup (tracking_request "abcdefghij") bob_db).1 = 200.
Proof.
  apply (proj1 (proj2 (proj2 (lookup_correct
                                (tracking_request "abcdefghij") bob_db)))
           bob_shipment).
  - apply list_elem_of_singleton. reflexivity.
  - reflexivity.
Defined.

Lemma tracking_case_insensitive_witness :
  lookup (tracking_request "AbCdEfGhIj") bob_db
  = lookup (tracking_request "abcdefghij") bob_db.
Proof.
  apply (proj2 (proj2 (tracking_case_insensitive "t1"
                         (tracking_request "abcdefghij") bob_db))
           (tracking_request "AbCdEfGhIj")).
  reflexivity.
Defined.

Lemma advance_frame_witness :
  users (advance "t1" (tracking_request "abcdefghij") bob_db).2 = users bob_db.
Proof.
  exact (proj1 (advance_frame "t1" (tracking_request "abcdefghij") bob_db)).
Defined.

(** * Further properties of the server *)

(** ** The middleware *)

Lemma toLowerCase_ascii_idem c :
  toLowerCase_ascii (toLowerCase_ascii c) = toLowerCase_ascii c.
Proof. destruct c as [[] [] [] [] [] [] [] []]; reflexivity. Qed.

Lemma toLowerCase_idem s : toLowerCase (toLowerCase s) = toLowerCase s.
Proof.
  unfold toLowerCase. induction s as [|c r IH]; simpl; [done|].
  by rewrite toLowerCase_ascii_idem, IH.
Qed.

(** A piece without a space, a space, and the rest: the piece is the first
    element of the split. *)
Lemma split_app_space s1 s2 :
  no_space s1 = true →
  split " " (s1 +:+ String " " s2) = s1 :: split " " s2.
Proof.
  unfold no_space. induction s1 as [|c r IH]; [done|].
  cbn [string_forallb]. intros [Hc Hr]%andb_true_iff.
  change (String c r +:+ String " " s2) with (String c (r +:+ String " " s2)).
  cbn [split]. rewrite (IH Hr).
  by destruct (Ascii.eqb c " ").
Qed.

Lemma authMiddleware_unfold jwt_verify req :
  authMiddleware jwt_verify req =
    match headers_authorization req with
    | None | Some EmptyString => inl missing_auth
    | Some auth =>
        match split " " auth !! 1%nat with
        | None => inl invalid_token
        | Some token =>
            match jwt_verify token with
            | Some payload => inr payload
            | None => inl invalid_token
            end
        end
    end.
Proof.
  unfold authMiddleware. by destruct (headers_authorization req) as [[|c r]|].
Qed.

(** X2. The middleware does not look at the scheme word of the header or
    at anything after the token: any first piece, also the empty one,
    followed by a space and a token that verifies is let through, and so
    is the same header with further space-separated pieces behind the
    token. *)
Theorem authMiddleware_ignores_scheme
    (jwt_verify : string → option Payload)
    (scheme token rest tracking : string) (b : Body.t) (payload : Payload) :
  no_space scheme = true →
  no_space token = true →
  jwt_verify token = Some payload →
  authMiddleware jwt_verify
    (mkRequest (Some (scheme +:+ " " +:+ token)) tracking b) = inr payload ∧
  authMiddleware jwt_verify
    (mkRequest (Some (scheme +:+ " " +:+ token +:+ " " +:+ rest)) tracking b)
    = inr payload.
Proof.
  intros Hs Ht Hv. rewrite !authMiddleware_unfold.
  cbn [headers_authorization].
  change (scheme +:+ " " +:+ token) with (scheme +:+ String " " token).
  change (scheme +:+ " " +:+ token +:+ " " +:+ rest)
    with (scheme +:+ String " " (token +:+ String " " rest)).
  assert (Hne : ∀ t, ∃ c r, scheme +:+ String " " t = String c r)
    by (intros t; destruct scheme; simpl; eauto).
  split.
  - destruct (Hne token) as (c & r & E).
    pose proof (split_app_space scheme token Hs) as Hsplit.
    rewrite E in *. rewrite Hsplit, (split_no_space token Ht). simpl.
    by rewrite Hv.
  - destruct (Hne (token +:+ String " " rest)) as (c & r & E).
    pose proof (split_app_space scheme (token +:+ String " " rest) Hs)
      as Hsplit.
    rewrite E in *. rewrite Hsplit, (split_app_space token rest Ht). simpl.
    by rewrite Hv.
Qed.

(** ** Accounts *)

Lemma find_email_None email l :
  find_email email l = None ↔
    Forall (λ u, User.email u ≠ toLowerCase email) l.
Proof.
  exact (list_find_None (λ u, User.email u = toLowerCase email) l).
Qed.

Lemma find_email_Some email l i u :
  find_email email l = Some (i, u) ↔
    l !! i = Some u ∧ User.email u = toLowerCase email ∧
    ∀ j v, l !! j = Some v → j < i → User.email v ≠ toLowerCase email.
Proof.
  exact (list_find_Some (λ u, User.email u = toLowerCase email) l i u).
Qed.

(** The user pushed behind users with other addresses is the one its
    address finds, whatever is pushed later. *)
Lemma find_email_middle email l u us :
  Forall (λ v, User.email v ≠ toLowerCase email) l →
  User.email u = toLowerCase email →
  find_email email (l ++ u :: us) = Some (length l, u).
Proof.
  intros Hl Hu. apply find_email_Some. split_and!.
  - by rewrite lookup_app_r, Nat.sub_diag by lia.
  - done.
  - intros j v Hj Hlt. rewrite lookup_app_l in Hj by done.
    rewrite Forall_lookup in Hl. by apply (Hl j v).
Qed.

Section Accounts.

Variable jwt_sign : Payload → string.
Variable jwt_verify : string → option Payload.
Variable bcrypt_compare : string → string → bool.

(** X5. Who has registered can log in.  After a successful registration
    and any further requests, a [login] under the same address in any
    letter case and with a non-empty password answers 200 with the
    registered user when [bcrypt.compare] accepts the password against the
    stored hash, and 400 "Invalid credentials" when it does not; the store
    is not changed.  With a truthy password that is not a string,
    [bcrypt.compare] throws and no response is sent. *)
Theorem register_then_login
    (nanoid hash : string) (req1 req2 : Request) (db db2 : DB)
    (email1 email2 : string) :
  status_code <$> (register jwt_sign nanoid hash req1 db).1 = Some 200 →
  rtc (step jwt_sign jwt_verify bcrypt_compare)
    (register jwt_sign nanoid hash req1 db).2 db2 →
  Body.email (body req1) = JString email1 →
  Body.email (body req2) = JString email2 →
  same_email email1 email2 →
  truthy (Body.password (body req2)) = true →
  let email := toLowerCase email1 in
  login jwt_sign bcrypt_compare req2 db2 =
    (match Body.password (body req2) with
     | JString password =>
         Some (if bcrypt_compare password hash
               then mkResponse 200
                      (JAuth (jwt_sign (mkPayload nanoid email))
                         (mkPublicUser nanoid
                            (to_json
                               (or_else (Body.name (body req1)) (JString "")))
                            email))
               else mkResponse 400 (JError "Invalid credentials"))
     | _ => None
     end,
     db2).
Proof.
  intros Hok Hsteps E1 E2 Hsame Hpw email.
  apply register_ok_inv in Hok as (e & Ee & He1 & _ & Hfresh & Hreg).
  rewrite E1 in Ee. injection Ee as <-.
  apply find_email_None in Hfresh.
  rewrite Hreg in Hsteps. simpl in Hsteps.
  apply steps_users_kept in Hsteps as (us & Hus). simpl in Hus.
  rewrite <- app_assoc in Hus. simpl in Hus.
  assert (He2 : truthy (Body.email (body req2)) = true).
  { rewrite E1 in He1. rewrite E2. unfold same_email in Hsame.
    destruct email1, email2; by simpl in *. }
  subst email. unfold login, falsy. rewrite He2, Hpw, E2. simpl.
  rewrite Hus, (find_email_middle email2 (users db)).
  - destruct (Body.password (body req2)) as [| |?|?|p|?]; try done.
    simpl. by destruct (bcrypt_compare _ _).
  - by rewrite <- Hsame.
  - simpl. exact Hsame.
Qed.

Lemma step_users db db' :
  step jwt_sign jwt_verify bcrypt_compare db db' →
  users db' = users db ∨
  ∃ u, users db' = users db ++ [u] ∧
       toLowerCase (User.email u) = User.email u ∧
       Forall (λ v, User.email v ≠ User.email u) (users db).
Proof.
  destruct 1 as [nanoid hash req db | req db | n10 n c a req db
                | req db | req db | now req db].
  - unfold register. destruct (falsy _ || falsy _); [by left|].
    destruct (Body.email (body req)) as [| |?|?|e|?]; simpl;
      try (left; by repeat case_match).
    destruct (find_email e (users db)) as [[i v]|] eqn:E; [by left|].
    destruct (Body.password (body req)) as [| |?|?|p|?]; try by left.
    right. eexists. simpl. split_and!; [done | apply toLowerCase_idem |].
    by apply find_email_None in E.
  - left. unfold login. by repeat case_match.
  - left. unfold create. by repeat case_match.
  - left. unfold lookup. by repeat case_match.
  - left. unfold my_shipments. by repeat case_match.
  - left. unfold advance. by repeat case_match.
Qed.

(** X7. The addresses of the stored users stay pairwise distinct and in
    lower case: no sequence of requests breaks this, so it holds of every
    store the server builds up from the empty one. *)
Theorem emails_stay_unique (db db' : DB) :
  rtc (step jwt_sign jwt_verify bcrypt_compare) db db' →
  emails_ok db →
  emails_ok db'.
Proof.
  induction 1 as [d | d1 d2 d3 H12 _ IH]; [done|].
  intros [Hnd Hlow]. apply IH. unfold emails_ok.
  destruct (step_users _ _ H12) as [->|(u & -> & Hu & Hfresh)]; [done|].
  split.
  - rewrite fmap_app. apply NoDup_app. split_and!; [done | | ].
    + intros e He. simpl. rewrite list_elem_of_singleton. intros ->.
      apply list_elem_of_fmap in He as (v & Hv & Hin).
      rewrite Forall_forall in Hfresh. by destruct (Hfresh v Hin).
    + simpl. apply NoDup_singleton.
  - apply Forall_app. split; [done|]. by apply Forall_singleton.
Qed.

End Accounts.

(** ** Shipments over time *)

Lemma stage_at_next k : next_status (stage_at k) = Some (stage_at (S k)).
Proof.
  do 4 (destruct k as [|k]; [reflexivity|]).
  unfold stage_at.
  replace (Z.min (Z.of_nat (S (S (S (S k))))) 4) with 4%Z by lia.
  replace (Z.min (Z.of_nat (S (S (S (S (S k)))))) 4) with 4%Z by lia.
  reflexivity.
Qed.

Lemma stage_at_in k : stage_at k ∈ nextStatuses.
Proof.
  unfold nextStatuses. rewrite !elem_of_cons.
  do 4 (destruct k as [|k]; [vm_compute; tauto|]).
  unfold stage_at.
  replace (Z.min (Z.of_nat (S (S (S (S k))))) 4) with 4%Z by lia.
  vm_compute; tauto.
Qed.

Lemma advance_shipment_shape now s :
  history_shape s → history_shape (advance_shipment now s).
Proof.
  unfold history_shape. intros (Hn & Hh & Hs).
  unfold advance_shipment. rewrite Hs, stage_at_next. simpl.
  rewrite length_app, fmap_app, Hh. simpl.
  replace (length (Shipment.history s) + 1)%nat
    with (S (length (Shipment.history s))) by lia.
  rewrite seq_S, fmap_app. simpl.
  replace (S (length (Shipment.history s) - 1))
    with (length (Shipment.history s)) by lia.
  split_and!; [lia | done |].
  f_equal. lia.
Qed.

Lemma reachable_shape s : reachable s → history_shape s.
Proof.
  induction 1 as [|now s _ IH].
  - unfold history_shape. simpl. by split_and!.
  - by apply advance_shipment_shape.
Qed.

Lemma advance_times_reachable nows s :
  reachable s → reachable (advance_times nows s).
Proof.
  intros Hs. induction nows as [|now nows IH] using rev_ind; [done|].
  rewrite advance_times_snoc. by apply reachable_advance.
Qed.

Lemma grows_into_refl s : grows_into s s.
Proof. unfold grows_into. by split_and!. Qed.

Lemma grows_into_trans s1 s2 s3 :
  grows_into s1 s2 → grows_into s2 s3 → grows_into s1 s3.
Proof.
  unfold grows_into.
  intros (?&?&?&?&?&?&?&?&?&?) (?&?&?&?&?&?&?&?&?&?).
  split_and!; try congruence; [by etrans | lia].
Qed.

Lemma advance_shipment_grows now s : grows_into s (advance_shipment now s).
Proof.
  unfold grows_into. split_and!; try done.
  - unfold advance_shipment. simpl. by apply prefix_app_r.
  - rewrite stage_index_advance. pose proof (stage_index_bounds s). lia.
Qed.

(** Replacing one element by another with the same key leaves a filter on
    that key with the same positions, the replaced element replaced. *)
Lemma filter_insert_related {A} (P : A → Prop) `{!∀ x, Decision (P x)}
    (R : A → A → Prop) (l : list A) i x y :
  (∀ a, R a a) →
  l !! i = Some x → (P x ↔ P y) → R x y →
  Forall2 R (filter P l) (filter P (<[i := y]> l)).
Proof.
  intros Hrefl Hi HP HR.
  assert (Hdiag : ∀ k : list A, Forall2 R k k)
    by (intros k; induction k; by constructor).
  rewrite insert_take_drop by (by eapply lookup_lt_Some).
  rewrite <- (take_drop_middle l i x Hi) at 1.
  rewrite !filter_app, !filter_cons.
  apply Forall2_app; [apply Hdiag|].
  destruct (decide (P x)), (decide (P y)); try tauto.
  - constructor; [done | apply Hdiag].
  - apply Hdiag.
Qed.

Section Shipments.

Variable jwt_sign : Payload → string.
Variable jwt_verify : string → option Payload.
Variable bcrypt_compare : string → string → bool.

(** What one request does to the shipment array. *)
Lemma step_shipments db db' :
  step jwt_sign jwt_verify bcrypt_compare db db' →
  shipments db' = shipments db ∨
  (∃ nanoid10 nanoid createdAt at_ b owner,
     shipments db' =
       shipments db ++
       [new_shipment nanoid (toUpperCase nanoid10) createdAt at_ b owner]) ∨
  (∃ now i s, shipments db !! i = Some s ∧
     shipments db' = <[i := advance_shipment now s]> (shipments db)).
Proof.
  destruct 1 as [nanoid hash req db | req db | n10 n c a req db
                | req db | req db | now req db].
  - left. unfold register. by repeat case_match.
  - left. unfold login. by repeat case_match.
  - unfold create. repeat case_match; simpl; eauto 10.
  - left. unfold lookup. by repeat case_match.
  - left. unfold my_shipments. by repeat case_match.
  - destruct (find_tracking (params_tracking req) (shipments db))
      as [[i s]|] eqn:E.
    + rewrite (advance_found _ _ _ _ _ E). simpl.
      right; right. apply find_tracking_Some in E as (Hi & _). eauto.
    + rewrite (advance_not_found _ _ _ E). eauto.
Qed.

Lemma step_grows db db' i s :
  step jwt_sign jwt_verify bcrypt_compare db db' →
  shipments db !! i = Some s →
  ∃ s', shipments db' !! i = Some s' ∧ grows_into s s'.
Proof.
  intros Hstep Hi.
  destruct (step_shipments _ _ Hstep)
    as [->|[(n10 & n & c & a & b & o & ->)|(now & j & x & Hj & ->)]].
  - exists s. split; [done | apply grows_into_refl].
  - exists s. split; [by apply lookup_app_l_Some | apply grows_into_refl].
  - destruct (decide (i = j)) as [->|Hne].
    + rewrite Hi in Hj. simplify_eq. exists (advance_shipment now x).
      split; [|apply advance_shipment_grows].
      apply list_lookup_insert_eq. by eapply lookup_lt_Some.
    + exists s. rewrite list_lookup_insert_ne by done.
      split; [done | apply grows_into_refl].
Qed.

Lemma step_codes_upper db db' :
  step jwt_sign jwt_verify bcrypt_compare db db' →
  codes_upper db → codes_upper db'.
Proof.
  unfold codes_upper. intros Hstep Hup.
  destruct (step_shipments _ _ Hstep)
    as [->|[(n10 & n & c & a & b & o & ->)|(now & j & x & Hj & ->)]].
  - done.
  - apply Forall_app. split; [done|]. apply Forall_singleton.
    simpl. apply toUpperCase_idem.
  - apply Forall_insert; [done|]. rewrite advance_shipment_tracking.
    rewrite Forall_lookup in Hup. by apply (Hup j x).
Qed.

Lemma steps_codes_upper db db' :
  rtc (step jwt_sign jwt_verify bcrypt_compare) db db' →
  codes_upper db → codes_upper db'.
Proof.
  induction 1 as [d | d1 d2 d3 H12 _ IH]; [done|].
  intros Hup. apply IH. by apply (step_codes_upper _ _ H12).
Qed.

End Shipments.


(** X9. [create] does not check that the tracking code is new.  When a
    stored shipment already carries the code of the created one, [lookup]
    keeps returning the older shipment, and [advance] under that code,
    however often it is called, never changes the created shipment. *)
Theorem tracking_collision
    (jwt_verify : string → option Payload)
    (nanoid10 nanoid createdAt at_ : string) (req : Request) (db : DB)
    (s : Shipment.t) (treq : Request) (nows : list string) :
  (create jwt_verify nanoid10 nanoid createdAt at_ req db).1
    = mkResponse 200 (JShipment s) →
  Exists (λ x, Shipment.tracking x = Shipment.tracking s) (shipments db) →
  toUpperCase (params_tracking treq) = Shipment.tracking s →
  let db1 := (create jwt_verify nanoid10 nanoid createdAt at_ req db).2 in
  (∃ i x,
     shipments db !! i = Some x ∧
     Shipment.tracking x = Shipment.tracking s ∧
     (lookup treq db1).1 = mkResponse 200 (JShipment x) ∧
     (lookup treq db).1 = mkResponse 200 (JShipment x)) ∧
  shipments db1 !! length (shipments db) = Some s ∧
  shipments (advance_many nows treq db1) !! length (shipments db) = Some s.
Proof.
  intros Hc Hex Hcode db1.
  apply create_ok_inv in Hc as (user & _ & _ & _ & _ & Hdb).
  subst db1. rewrite Hdb. clear Hdb.
  apply Exists_exists in Hex as (x0 & Hin & Hx0).
  destruct (find_tracking (params_tracking treq) (shipments db))
    as [[i x]|] eqn:E.
  2:{ apply find_tracking_None in E. rewrite Forall_forall in E.
      destruct (E x0 Hin). by rewrite Hcode. }
  assert (E1 : find_tracking (params_tracking treq) (shipments db ++ [s])
               = Some (i, x))
    by (by apply list_find_app_l).
  pose proof E as (Hi & Ht & _)%find_tracking_Some.
  assert (Hlt : i < length (shipments db)) by by eapply lookup_lt_Some.
  assert (Hs : (shipments db ++ [s]) !! length (shipments db) = Some s)
    by (by rewrite lookup_app_r, Nat.sub_diag by lia).
  split_and!.
  - exists i, x. unfold lookup. simpl. rewrite E, E1.
    split_and!; try done. by rewrite Ht.
  - done.
  - rewrite (advance_many_found nows treq
               (mkDB (users db) (shipments db ++ [s])) _ _ E1). simpl.
    rewrite list_lookup_insert_ne by lia. done.
Qed.

(** X10. Nothing is ever deleted or rewritten.  Over any sequence of
    requests the shipment array does not get shorter, and what is stored
    at a position stays the same record (id, tracking code, creation time,
    service, weight, recipient, owner), with a history that is only
    extended at its end and a stage that never moves back. *)
Theorem store_only_grows
    (jwt_sign : Payload → string) (jwt_verify : string → option Payload)
    (bcrypt_compare : string → string → bool) (db db' : DB) :
  rtc (step jwt_sign jwt_verify bcrypt_compare) db db' →
  (length (shipments db) ≤ length (shipments db'))%nat ∧
  (users db `prefix_of` users db') ∧
  ∀ i s, shipments db !! i = Some s →
         ∃ s', shipments db' !! i = Some s' ∧ grows_into s s'.
Proof.
  intros Hsteps.
  assert (Hg : ∀ i s, shipments db !! i = Some s →
                 ∃ s', shipments db' !! i = Some s' ∧ grows_into s s').
  { induction Hsteps as [d | d1 d2 d3 H12 _ IH]; intros i s Hi.
    - exists s. split; [done | apply grows_into_refl].
    - destruct (step_grows _ _ _ _ _ _ _ H12 Hi) as (s2 & Hi2 & Hg2).
      destruct (IH _ _ Hi2) as (s3 & Hi3 & Hg3).
      exists s3. split; [done|]. by eapply grows_into_trans. }
  split_and!; [| | done].
  - destruct (decide (length (shipments db) ≤ length (shipments db'))%nat)
      as [|Hlt]; [done|].
    destruct (lookup_lt_is_Some_2 (shipments db) (length (shipments db')))
      as [s Hs]; [lia|].
    destruct (Hg _ _ Hs) as (s' & Hs' & _).
    apply lookup_lt_Some in Hs'. lia.
  - destruct (steps_users_kept _ _ _ _ _ Hsteps) as (us & ->).
    by apply prefix_app_r.
Qed.

(** X11. Every shipment of a store that the server built up from the
    empty one can be found under its own tracking code: [lookup] of the
    stored code answers 200 with a stored shipment carrying that code. *)
Theorem stored_code_is_found
    (jwt_sign : Payload → string) (jwt_verify : string → option Payload)
    (bcrypt_compare : string → string → bool) (db : DB) (s : Shipment.t) :
  rtc (step jwt_sign jwt_verify bcrypt_compare) initDB db →
  s ∈ shipments db →
  no_lowercase (Shipment.tracking s) = true ∧
  ∃ x, (lookup (tracking_request (Shipment.tracking s)) db).1
         = mkResponse 200 (JShipment x) ∧
       x ∈ shipments db ∧
       Shipment.tracking x = Shipment.tracking s.
Proof.
  intros Hsteps Hin.
  assert (Hup : codes_upper db).
  { apply (steps_codes_upper _ _ _ _ _ Hsteps). constructor. }
  unfold codes_upper in Hup. rewrite Forall_forall in Hup.
  specialize (Hup s Hin). split.
  - rewrite <- Hup. apply toUpperCase_no_lowercase.
  - unfold lookup, tracking_request. simpl.
    destruct (find_tracking (Shipment.tracking s) (shipments db))
      as [[i x]|] eqn:E.
    + apply find_tracking_Some in E as (Hi & Ht & _).
      exists x. split_and!; [done | | congruence].
      apply list_elem_of_lookup. eauto.
    + apply find_tracking_None in E. rewrite Forall_forall in E.
      by destruct (E s Hin).
Qed.

(** X12. In a store that the server built up from the empty one, the
    history of every shipment spells out its way through the stages: with
    [n] entries, entry [k] carries stage [min k 4] of the five, so the
    history starts with "Label Created", moves one stage per entry up to
    "Delivered" and repeats "Delivered" from then on; and the current
    status is the stage of the last entry. *)
Theorem history_follows_stages
    (jwt_sign : Payload → string) (jwt_verify : string → option Payload)
    (bcrypt_compare : string → string → bool) (db : DB) (s : Shipment.t) :
  rtc (step jwt_sign jwt_verify bcrypt_compare) initDB db →
  s ∈ shipments db →
  let n := length (Shipment.history s) in
  (1 ≤ n)%nat ∧
  (∀ k e, Shipment.history s !! k = Some e →
          array_get nextStatuses (Z.min (Z.of_nat k) 4)
          = Some (Entry.status e)) ∧
  array_get nextStatuses (Z.min (Z.of_nat (n - 1)) 4)
  = Some (Shipment.status s).
Proof.
  intros Hsteps Hin n.
  pose proof (store_reachable _ _ _ _ Hsteps) as Hr.
  rewrite Forall_forall in Hr.
  destruct (reachable_shape s (Hr s Hin)) as (Hn & Hh & Hs). fold n in Hn, Hs.
  assert (Hat : ∀ k, array_get nextStatuses (Z.min (Z.of_nat k) 4)
                     = Some (stage_at k)).
  { intros k. unfold stage_at.
    do 4 (destruct k as [|k]; [reflexivity|]).
    by replace (Z.min (Z.of_nat (S (S (S (S k))))) 4) with 4%Z by lia. }
  split_and!; [done | | by rewrite Hs].
  intros k e Hk.
  assert (Hke : (Entry.status <$> Shipment.history s) !! k
                = Some (Entry.status e)) by by rewrite list_lookup_fmap, Hk.
  rewrite Hh, list_lookup_fmap in Hke.
  assert (Hlt : k < n) by by eapply lookup_lt_Some.
  rewrite lookup_seq_lt in Hke by done. simpl in Hke.
  rewrite Hat. congruence.
Qed.

(** X13. A created shipment shows up in its creator's list and in nobody
    else's: after a successful [create], [my_shipments] with the same
    token returns what it returned before followed by the new shipment,
    and for a token of any other user id it returns what it returned
    before. *)
Theorem create_then_my_shipments
    (jwt_verify : string → option Payload)
    (nanoid10 nanoid createdAt at_ : string) (req : Request) (db : DB)
    (s : Shipment.t) :
  (create jwt_verify nanoid10 nanoid createdAt at_ req db).1
    = mkResponse 200 (JShipment s) →
  let db1 := (create jwt_verify nanoid10 nanoid createdAt at_ req db).2 in
  (∃ l, (my_shipments jwt_verify req db).1 = mkResponse 200 (JShipments l) ∧
        (my_shipments jwt_verify req db1).1
          = mkResponse 200 (JShipments (l ++ [s]))) ∧
  (∀ req' user',
     authMiddleware jwt_verify req' = inr user' →
     payload_id user' ≠ Shipment.owner s →
     (my_shipments jwt_verify req' db1).1
       = (my_shipments jwt_verify req' db).1).
Proof.
  intros Hc db1.
  apply create_ok_inv in Hc as (user & Ea & _ & _ & Hs & Hdb).
  subst db1. rewrite Hdb.
  assert (Ho : Shipment.owner s = payload_id user) by by rewrite Hs.
  split.
  - eexists. unfold my_shipments. rewrite Ea. simpl.
    split; [reflexivity|].
    rewrite filter_app, filter_cons, decide_True by done. done.
  - intros req' user' Ea' Hne. unfold my_shipments. rewrite Ea'. simpl.
    rewrite filter_app, filter_cons, decide_False by congruence.
    by rewrite filter_nil, app_nil_r.
Qed.

Lemma advanced_list_ids now (l l' : list Shipment.t) :
  Forall2 (λ a b, b = a ∨ b = advance_shipment now a) l l' →
  Shipment.id <$> l' = Shipment.id <$> l.
Proof.
  induction 1 as [|a b l l' [->| ->] _ IH]; [done|..];
    rewrite !fmap_cons, IH; done.
Qed.

(** X14. [advance] moves no shipment from one user's list to another's:
    the list [my_shipments] returns after an [advance] has the entries of
    the list it returned before, in the same order, each either untouched
    or advanced once, so the ids listed are the same. *)
Theorem advance_keeps_owner_lists
    (jwt_verify : string → option Payload)
    (now : string) (treq req : Request) (db : DB) (user : Payload) :
  authMiddleware jwt_verify req = inr user →
  ∃ l l',
    (my_shipments jwt_verify req db).1 = mkResponse 200 (JShipments l) ∧
    (my_shipments jwt_verify req (advance now treq db).2).1
      = mkResponse 200 (JShipments l') ∧
    Forall2 (λ a b, b = a ∨ b = advance_shipment now a) l l' ∧
    Shipment.id <$> l' = Shipment.id <$> l.
Proof.
  intros Ea. unfold my_shipments. rewrite Ea. simpl.
  eexists _, _. split; [reflexivity|]. split; [reflexivity|].
  assert (HF : Forall2 (λ a b, b = a ∨ b = advance_shipment now a)
                 (filter (λ s, Shipment.owner s = payload_id user)
                    (shipments db))
                 (filter (λ s, Shipment.owner s = payload_id user)
                    (shipments (advance now treq db).2))).
  { destruct (find_tracking (params_tracking treq) (shipments db))
      as [[i s]|] eqn:E.
    - rewrite (advance_found _ _ _ _ _ E). simpl.
      apply find_tracking_Some in E as (Hi & _).
      apply (filter_insert_related _ _ _ i s); auto.
    - rewrite (advance_not_found _ _ _ E).
      induction (filter _ _); constructor; auto. }
  split; [exact HF | by apply (advanced_list_ids now)].
Qed.

(** X15. After an [advance] the status of the advanced shipment is one of
    the five stages whatever it was before: a stored status that is none
    of the five (then [indexOf] is [-1]) is replaced by "Label Created". *)
Theorem advance_repairs_status (now : string) (req : Request) (db : DB)
    (i : nat) (s : Shipment.t) :
  shipments db !! i = Some s →
  Shipment.tracking s = toUpperCase (params_tracking req) →
  (∀ j y, shipments db !! j = Some y → j < i →
          Shipment.tracking y ≠ toUpperCase (params_tracking req)) →
  ∃ s',
    (advance now req db).1 = mkResponse 200 (JShipment s') ∧
    Shipment.status s' ∈ nextStatuses ∧
    (Shipment.status s ∉ nextStatuses →
     Shipment.status s' = "Label Created" ∧
     Shipment.history s'
       = Shipment.history s ++ [Entry.mk "Label Created" now]).
Proof.
  intros Hi Ht Hfirst.
  assert (E : find_tracking (params_tracking req) (shipments db)
              = Some (i, s)) by (by apply find_tracking_Some).
  rewrite (advance_found _ _ _ _ _ E). simpl.
  destruct (next_status_defined (Shipment.status s)) as (next & En & Hin).
  exists (advance_shipment now s). unfold advance_shipment.
  rewrite En. simpl. split_and!; [done | done |].
  intros Hout. revert En. unfold next_status.
  destruct (indexOf_cases (Shipment.status s)) as [H|[H|[H|[H|[H|H]]]]];
    destruct H as [Hs ->]; try (by destruct Hout; rewrite Hs;
      unfold nextStatuses; rewrite !elem_of_cons; tauto).
  intros En. vm_compute in En. by simplify_eq.
Qed.

(** X16. A shipment created under a new code and advanced [N] times, for
    any [N], is at stage [min N 4] and has [N + 1] history entries; so
    zero to four advances reach "Label Created", "Picked Up", "In Transit",
    "Out for Delivery" and "Delivered" in turn. *)
Theorem advance_n_times
    (jwt_verify : string → option Payload)
    (nanoid10 nanoid createdAt at_ : string) (req : Request) (db : DB)
    (s : Shipment.t) (treq : Request) (nows : list string) :
  (create jwt_verify nanoid10 nanoid createdAt at_ req db).1
    = mkResponse 200 (JShipment s) →
  Forall (λ x, Shipment.tracking x ≠ Shipment.tracking s) (shipments db) →
  toUpperCase (params_tracking treq) = Shipment.tracking s →
  let db1 := (create jwt_verify nanoid10 nanoid createdAt at_ req db).2 in
  ∃ s',
    (lookup treq (advance_many nows treq db1)).1
      = mkResponse 200 (JShipment s') ∧
    array_get nextStatuses (Z.min (Z.of_nat (length nows)) 4)
      = Some (Shipment.status s') ∧
    length (Shipment.history s') = (length nows + 1)%nat ∧
    Shipment.history s `prefix_of` Shipment.history s'.
Proof.
  intros Hc Hfresh Hcode db1.
  apply create_ok_inv in Hc as (user & _ & _ & _ & Hs & Hdb). subst db1.
  rewrite Hdb.
  assert (E : find_tracking (params_tracking treq) (shipments db ++ [s])
              = Some (length (shipments db), s)).
  { apply find_tracking_push; [by rewrite Hcode | done]. }
  rewrite (advance_many_found nows treq
             (mkDB (users db) (shipments db ++ [s])) _ _ E). simpl.
  exists (advance_times nows s). unfold lookup. simpl.
  rewrite (find_tracking_insert _ _ _ _ (advance_times nows s) E)
    by apply advance_times_tracking.
  assert (Hr : reachable (advance_times nows s)).
  { apply advance_times_reachable. rewrite Hs. apply reachable_new. }
  destruct (reachable_shape _ Hr) as (_ & _ & Hst).
  rewrite advance_times_history_length in Hst.
  assert (Hl : length (Shipment.history s) = 1%nat) by by rewrite Hs.
  rewrite Hl in Hst.
  replace (1 + length nows - 1)%nat with (length nows) in Hst by lia.
  split_and!.
  - done.
  - rewrite Hst. unfold stage_at. generalize (length nows). intros k.
    do 4 (destruct k as [|k]; [reflexivity|]).
    by replace (Z.min (Z.of_nat (S (S (S (S k))))) 4) with 4%Z by lia.
  - rewrite advance_times_history_length, Hl. lia.
  - apply advance_times_history_prefix.
Qed.

(** X17. A stored shipment whose tracking code is not its own uppercase
    form (a code with a lowercase letter, which [create] never writes) is
    out of reach: no request makes [lookup] return it, and [advance],
    however often it is called, leaves it as it is. *)
Theorem lowercase_code_out_of_reach
    (db : DB) (i : nat) (s : Shipment.t) (req : Request)
    (nows : list string) :
  shipments db !! i = Some s →
  toUpperCase (Shipment.tracking s) ≠ Shipment.tracking s →
  (lookup req db).1 ≠ mkResponse 200 (JShipment s) ∧
  shipments (advance_many nows req db) !! i = Some s.
Proof.
  intros Hi Hlow.
  assert (Hne : ∀ j x, find_tracking (params_tracking req) (shipments db)
                       = Some (j, x) → x ≠ s ∧ j ≠ i).
  { intros j x (Hj & Ht & _)%find_tracking_Some.
    assert (x ≠ s).
    { intros ->. apply Hlow. by rewrite Ht, toUpperCase_idem. }
    split; [done|]. intros ->. congruence. }
  destruct (find_tracking (params_tracking req) (shipments db))
    as [[j x]|] eqn:E.
  - destruct (Hne j x eq_refl) as [Hx Hj]. split.
    + unfold lookup, res_json. rewrite E. simpl. by intros [= ?].
    + rewrite (advance_many_found nows req db j x E). simpl.
      by rewrite list_lookup_insert_ne.
  - split.
    + unfold lookup. by rewrite E.
    + by rewrite (advance_many_not_found nows req db E).
Qed.

(** ** Requests one after the other *)

(** Rewriting a shipment that does not carry the code, by one that does
    not carry it either, does not change what the code finds. *)
Lemma find_tracking_insert_other tracking l i s s' :
  l !! i = Some s →
  Shipment.tracking s ≠ toUpperCase tracking →
  Shipment.tracking s' = Shipment.tracking s →
  find_tracking tracking (<[i := s']> l) = find_tracking tracking l.
Proof.
  unfold find_tracking. intros Hi Hs Hs'. revert i Hi.
  induction l as [|x l IH]; intros [|i] Hi; simplify_eq/=; try done.
  - rewrite !decide_False by congruence. done.
  - by rewrite (IH i Hi).
Qed.

(** X18. What [advance] answers is what the store then holds: a [lookup]
    of the same code right after an [advance] gives the answer the
    [advance] gave, the advanced shipment or 404. *)
Theorem advance_then_lookup (now : string) (req : Request) (db : DB) :
  (lookup req (advance now req db).2).1 = (advance now req db).1.
Proof.
  destruct (find_tracking (params_tracking req) (shipments db))
    as [[i s]|] eqn:E.
  - rewrite (advance_found _ _ _ _ _ E). unfold lookup. simpl.
    by rewrite (find_tracking_insert _ _ _ _ (advance_shipment now s) E).
  - rewrite (advance_not_found _ _ _ E). unfold lookup. simpl. by rewrite E.
Qed.

(** X19. Advances under different codes do not interfere.  When the codes
    of two requests differ after uppercasing, an [advance] of the one does
    not change what [lookup] answers for the other, and two advances leave
    the same store in either order. *)
Theorem advance_other_code (now1 now2 : string) (req1 req2 : Request)
    (db : DB) :
  toUpperCase (params_tracking req1) ≠ toUpperCase (params_tracking req2) →
  (lookup req2 (advance now1 req1 db).2).1 = (lookup req2 db).1 ∧
  (advance now2 req2 (advance now1 req1 db).2).1 = (advance now2 req2 db).1 ∧
  (advance now2 req2 (advance now1 req1 db).2).2
    = (advance now1 req1 (advance now2 req2 db).2).2.
Proof.
  intros Hne.
  assert (Hother : ∀ (ra rb : Request) now,
            toUpperCase (params_tracking ra)
              ≠ toUpperCase (params_tracking rb) →
            find_tracking (params_tracking rb) (shipments (advance now ra db).2)
            = find_tracking (params_tracking rb) (shipments db)).
  { intros ra rb now Hab.
    destruct (find_tracking (params_tracking ra) (shipments db))
      as [[i s]|] eqn:E.
    - rewrite (advance_found _ _ _ _ _ E). simpl.
      apply find_tracking_Some in E as (Hi & Ht & _).
      apply (find_tracking_insert_other _ _ _ s); [done | congruence | done].
    - by rewrite (advance_not_found _ _ _ E). }
  pose proof (Hother req1 req2 now1 Hne) as H12.
  pose proof (Hother req2 req1 now2 (not_eq_sym Hne)) as H21.
  split_and!.
  - unfold lookup. rewrite H12.
    by destruct (find_tracking (params_tracking req2) (shipments db))
      as [[i s]|].
  - unfold advance at 1 3. rewrite H12.
    by destruct (find_tracking (params_tracking req2) (shipments db))
      as [[i s]|].
  - unfold advance at 1 3. rewrite H12, H21.
    destruct (find_tracking (params_tracking req1) (shipments db))
      as [[i1 s1]|] eqn:E1;
      destruct (find_tracking (params_tracking req2) (shipments db))
        as [[i2 s2]|] eqn:E2;
      rewrite ?(advance_found _ _ _ _ _ E1), ?(advance_found _ _ _ _ _ E2),
        ?(advance_not_found _ _ _ E1), ?(advance_not_found _ _ _ E2);
      simpl; try done.
    f_equal. apply list_insert_insert_ne.
    apply find_tracking_Some in E1 as (Hi1 & Ht1 & _).
    apply find_tracking_Some in E2 as (Hi2 & Ht2 & _).
    intros ->. congruence.
Qed.

(** * Further worked examples *)

Lemma authMiddleware_ignores_scheme_witness :
  authMiddleware demo_verify (mkRequest (Some "Basic u1") "" Body.empty)
    = inr (mkPayload "u1" "a@b.com") ∧
  authMiddleware demo_verify (mkRequest (Some "Basic u1 and more") "" Body.empty)
    = inr (mkPayload "u1" "a@b.com").
Proof.
  exact (authMiddleware_ignores_scheme demo_verify "Basic" "u1" "and more" ""
           Body.empty (mkPayload "u1" "a@b.com") eq_refl eq_refl eq_refl).
Defined.

Lemma register_then_login_witness :
  login demo_sign demo_compare alice_login_request alice_db
  = (Some (mkResponse 200
             (JAuth "u1" (mkPublicUser "u1" (JString "Alice") "a@b.com"))),
     alice_db).
Proof.
  apply (register_then_login demo_sign demo_verify demo_compare
           "u1" "hash:x" alice_request alice_login_request initDB alice_db
           "a@b.com" "A@B.COM").
  - reflexivity.
  - apply rtc_refl.
  - reflexivity.
  - reflexivity.
  - reflexivity.
  - reflexivity.
Defined.

Lemma emails_stay_unique_witness : emails_ok alice_db.
Proof.
  apply (emails_stay_unique demo_sign demo_verify demo_compare
           initDB alice_db).
  - apply rtc_once.
    exact (step_register demo_sign demo_verify demo_compare
             "u1" "hash:x" alice_request initDB).
  - split; constructor.
Defined.


Lemma tracking_collision_witness :
  shipments clash_db !! 1%nat = Some eve_shipment ∧
  shipments (advance_many ["t1"; "t2"] (tracking_request "abcdefghij")
               clash_db) !! 1%nat = Some eve_shipment.
Proof.
  destruct (tracking_collision demo_verify "ABCDEFGHIJ" "s2" "t9" "t9"
              eve_request bob_db eve_shipment
              (tracking_request "abcdefghij") ["t1"; "t2"])
    as (_ & H1 & H2).
  - reflexivity.
  - apply Exists_cons_hd. reflexivity.
  - reflexivity.
  - split; [exact H1 | exact H2].
Defined.

Lemma store_only_grows_witness :
  ∃ s', shipments (advance "t1" (tracking_request "abcdefghij") bob_db).2
          !! 0%nat = Some s' ∧
        grows_into bob_shipment s'.
Proof.
  apply (proj2 (proj2 (store_only_grows demo_sign demo_verify demo_compare
                         bob_db
                         (advance "t1" (tracking_request "abcdefghij")
                            bob_db).2
                         (rtc_once _ _
                            (step_advance demo_sign demo_verify demo_compare
                               "t1" (tracking_request "abcdefghij")
                               bob_db))))).
  reflexivity.
Defined.

Lemma stored_code_is_found_witness :
  ∃ x, (lookup (tracking_request "ABCDEFGHIJ") bob_db).1
         = mkResponse 200 (JShipment x) ∧
       x ∈ shipments bob_db ∧
       Shipment.tracking x = "ABCDEFGHIJ".
Proof.
  apply (stored_code_is_found demo_sign demo_verify demo_compare
           bob_db bob_shipment).
  - apply rtc_once.
    exact (step_create demo_sign demo_verify demo_compare
             "abcdefghij" "s1" "t0" "t0" bob_request initDB).
  - apply list_elem_of_singleton. reflexivity.
Defined.

Lemma history_follows_stages_witness :
  array_get nextStatuses 0 = Some (Shipment.status bob_shipment).
Proof.
  apply (history_follows_stages demo_sign demo_verify demo_compare
           bob_db bob_shipment).
  - apply rtc_once.
    exact (step_create demo_sign demo_verify demo_compare
             "abcdefghij" "s1" "t0" "t0" bob_request initDB).
  - apply list_elem_of_singleton. reflexivity.
Defined.

Lemma create_then_my_shipments_witness :
  ∃ l, (my_shipments demo_verify bob_request initDB).1
         = mkResponse 200 (JShipments l) ∧
       (my_shipments demo_verify bob_request bob_db).1
         = mkResponse 200 (JShipments (l ++ [bob_shipment])).
Proof.
  apply (create_then_my_shipments demo_verify "abcdefghij" "s1" "t0" "t0"
           bob_request initDB bob_shipment).
  reflexivity.
Defined.

Lemma advance_keeps_owner_lists_witness :
  ∃ l l',
    (my_shipments demo_verify bob_request two_db).1
      = mkResponse 200 (JShipments l) ∧
    (my_shipments demo_verify bob_request
       (advance "t1" (tracking_request "abcdefghij") two_db).2).1
      = mkResponse 200 (JShipments l') ∧
    Forall2 (λ a b, b = a ∨ b = advance_shipment "t1" a) l l' ∧
    Shipment.id <$> l' = Shipment.id <$> l.
Proof.
  apply (advance_keeps_owner_lists demo_verify "t1"
           (tracking_request "abcdefghij") bob_request two_db
           (mkPayload "u1" "a@b.com")).
  reflexivity.
Defined.

Lemma advance_repairs_status_witness :
  ∃ s',
    (advance "t1" (tracking_request "odd0000001") (mkDB [] [odd_shipment])).1
      = mkResponse 200 (JShipment s') ∧
    Shipment.status s' ∈ nextStatuses ∧
    (Shipment.status odd_shipment ∉ nextStatuses →
     Shipment.status s' = "Label Created" ∧
     Shipment.history s'
       = Shipment.history odd_shipment ++ [Entry.mk "Label Created" "t1"]).
Proof.
  apply (advance_repairs_status "t1" (tracking_request "odd0000001")
           (mkDB [] [odd_shipment]) 0%nat odd_shipment).
  - reflexivity.
  - reflexivity.
  - intros j y _ Hlt. lia.
Defined.

Lemma advance_n_times_witness :
  ∃ s',
    (lookup (tracking_request "abcdefghij")
       (advance_many ["t1"; "t2"] (tracking_request "abcdefghij") bob_db)).1
      = mkResponse 200 (JShipment s') ∧
    Shipment.status s' = "In Transit" ∧
    length (Shipment.history s') = 3%nat.
Proof.
  destruct (advance_n_times demo_verify "abcdefghij" "s1" "t0" "t0"
              bob_request initDB bob_shipment
              (tracking_request "abcdefghij") ["t1"; "t2"])
    as (s' & Hr & Hs & Hl & _).
  - reflexivity.
  - constructor.
  - reflexivity.
  - exists s'. split; [exact Hr|]. split; [|exact Hl].
    change (Some "In Transit" = Some (Shipment.status s')) in Hs.
    by injection Hs.
Defined.

Lemma lowercase_code_out_of_reach_witness :
  (lookup (tracking_request "lower00001") (mkDB [] [lower_shipment])).1
    ≠ mkResponse 200 (JShipment lower_shipment) ∧
  shipments (advance_many ["t1"] (tracking_request "lower00001")
               (mkDB [] [lower_shipment])) !! 0%nat = Some lower_shipment.
Proof.
  apply (lowercase_code_out_of_reach (mkDB [] [lower_shipment]) 0%nat
           lower_shipment (tracking_request "lower00001") ["t1"]).
  - reflexivity.
  - intros H. vm_compute in H. discriminate H.
Defined.

Lemma advance_other_code_witness :
  (advance "t2" (tracking_request "abcdefghij")
     (advance "t1" (tracking_request "zzzzzzzzzz") two_db).2).2
  = (advance "t1" (tracking_request "zzzzzzzzzz")
       (advance "t2" (tracking_request "abcdefghij") two_db).2).2.
Proof.
  apply (advance_other_code "t1" "t2" (tracking_request "zzzzzzzzzz")
           (tracking_request "abcdefghij") two_db).
  intros H. vm_compute in H. discriminate H.
Defined.
